(** * Checkpoint retention and balanced resampling (utils.py)

    A shallow embedding of [checkpoint_epoch], [list_checkpoints],
    [delete_old_ckpts] and [balanced_dataset] of utils.py, and the
    properties of the specification that concern them.

    Conventions of the model:
    - a Python [str] is a [string] (one character per byte);
    - a Python [int] is a [Z];
    - an exception is a value of [exn]; a computation that may raise
      returns a [result];
    - the file system is explicit state, threaded by the monad [io];
    - numpy's global random generator is explicit state as well, and its
      operations are taken through the interface [RandomState]. *)

From Stdlib Require Import ZArith Ascii String List Lia.
From Stdlib Require Import DecimalString DecimalPos DecimalN.
From Stdlib Require Import Floats Uint63.
From Stdlib Require Import Sorting.Permutation.
From stdpp Require Import base strings list sorting gmap.

Local Open Scope Z_scope.

(** ** Exceptions and results *)

Inductive exn : Type :=
  | IndexError
  | ValueError
  | FileNotFoundError (path : string)
  | PermissionError (path : string).

Inductive result (A : Type) : Type :=
  | Ok (a : A)
  | Raise (e : exn).

Arguments Ok {A} a.
Arguments Raise {A} e.

Definition rbind {A B} (r : result A) (k : A -> result B) : result B :=
  match r with
  | Ok a => k a
  | Raise e => Raise e
  end.

Definition is_ok {A} (r : result A) : bool :=
  match r with Ok _ => true | Raise _ => false end.

Declare Scope result_scope.
Delimit Scope result_scope with result.
Notation "x <-? c ; k" := (rbind c (fun x => k))
  (at level 100, c at next level, right associativity) : result_scope.

(** [[f(x) for x in l]] for an [f] that may raise: left to right, the
    first exception ends the comprehension. *)
Fixpoint rmap {A B} (f : A -> result B) (l : list A) : result (list B) :=
  match l with
  | [] => Ok []
  | x :: l' =>
      (y <-? f x ; ys <-? rmap f l' ; Ok (y :: ys))%result
  end.

(** ** Python sequences: indexing and slicing *)

Module Py.

(** [l[i]], with Python's negative indices and [IndexError]. *)
Definition index {A} (l : list A) (i : Z) : result A :=
  let n := Z.of_nat (length l) in
  let j := if i <? 0 then i + n else i in
  if (j <? 0) || (n <=? j) then Raise IndexError
  else match nth_error l (Z.to_nat j) with
       | Some x => Ok x
       | None => Raise IndexError
       end.

(** [l[:stop]]: a negative [stop] counts from the end, and the bound is
    clamped to the length of the sequence. *)
Definition slice_to {A} (l : list A) (stop : Z) : list A :=
  let n := Z.of_nat (length l) in
  let j := if stop <? 0 then Z.max 0 (stop + n) else Z.min stop n in
  firstn (Z.to_nat j) l.

(** [x in l] on a sequence of integers. *)
Definition mem (x : Z) (l : list Z) : bool :=
  existsb (Z.eqb x) l.

End Py.

(** ** Python strings *)

Module Str.

Fixpoint all_chars (p : ascii -> bool) (s : string) : bool :=
  match s with
  | EmptyString => true
  | String c s' => p c && all_chars p s'
  end.

(** [c] does not occur in [s]. *)
Definition free_of (c : ascii) (s : string) : bool :=
  all_chars (fun d => negb (Ascii.eqb d c)) s.

(** [s.split(sep)] for a separator of one character, which is all the
    source uses. The result is never empty. *)
Fixpoint split (sep : ascii) (s : string) : list string :=
  match s with
  | EmptyString => [EmptyString]
  | String c s' =>
      if Ascii.eqb c sep then EmptyString :: split sep s'
      else match split sep s' with
           | [] => [String c EmptyString]
           | h :: t => String c h :: t
           end
  end.

(** [sub in s]. *)
Fixpoint contains (sub s : string) : bool :=
  String.prefix sub s
  || match s with
     | EmptyString => false
     | String _ s' => contains sub s'
     end.

(** [s.replace(old, new)] for a non-empty [old]: occurrences are replaced
    left to right and do not overlap. [skip] counts the characters of a
    matched occurrence that are still to be dropped. *)
Fixpoint replace_from (old new : string) (skip : nat) (s : string) : string :=
  match s with
  | EmptyString => EmptyString
  | String c s' =>
      match skip with
      | S k => replace_from old new k s'
      | O =>
          if String.prefix old s
          then new +:+ replace_from old new (String.length old - 1) s'
          else String c (replace_from old new 0 s')
      end
  end.

(** With an empty [old], Python puts [new] before every character and at
    the end. *)
Fixpoint intersperse (new s : string) : string :=
  match s with
  | EmptyString => new
  | String c s' => new +:+ String c (intersperse new s')
  end.

Definition replace (old new s : string) : string :=
  match old with
  | EmptyString => intersperse new s
  | _ => replace_from old new 0 s
  end.

(** *** [int(s)] in base ten *)

Definition is_digit (c : ascii) : bool :=
  let n := nat_of_ascii c in
  (Nat.leb 48 n) && (Nat.leb n 57).

Definition digit_value (c : ascii) : Z :=
  Z.of_nat (nat_of_ascii c) - 48.

Definition digits_only (s : string) : bool := all_chars is_digit s.

(** The characters [int] strips from a string of ASCII characters: tab,
    line feed, vertical tab, form feed, carriage return and space. The
    separators 28 to 31 are kept, and make [int] fail. *)
Definition is_space (c : ascii) : bool :=
  let n := nat_of_ascii c in
  ((Nat.leb 9 n) && (Nat.leb n 13)) || Nat.eqb n 32.

Fixpoint lstrip (s : string) : string :=
  match s with
  | EmptyString => EmptyString
  | String c s' => if is_space c then lstrip s' else s
  end.

Fixpoint rstrip (s : string) : string :=
  match s with
  | EmptyString => EmptyString
  | String c s' =>
      match rstrip s' with
      | EmptyString => if is_space c then EmptyString else String c EmptyString
      | r => String c r
      end
  end.

(** Digits, with single underscores allowed between two digits.
    [after_digit] says whether the previous character was a digit. *)
Fixpoint parse_digits (acc : Z) (after_digit : bool) (s : string) : option Z :=
  match s with
  | EmptyString => if after_digit then Some acc else None
  | String c s' =>
      if is_digit c then parse_digits (10 * acc + digit_value c) true s'
      else if Ascii.eqb c "_" && after_digit then parse_digits acc false s'
      else None
  end.

(** Surrounding white space is dropped, one sign is allowed, and what is
    left has to be digits. *)
Definition int (s : string) : result Z :=
  let body := rstrip (lstrip s) in
  let '(neg, digits) :=
    match body with
    | String c d =>
        if Ascii.eqb c "-" then (true, d)
        else if Ascii.eqb c "+" then (false, d)
        else (false, body)
    | EmptyString => (false, body)
    end in
  match parse_digits 0 false digits with
  | Some n => Ok (if neg : bool then - n else n)
  | None => Raise ValueError
  end.

(** [str(n)] for a natural number: its decimal digits. *)
Definition of_N (n : N) : string :=
  NilEmpty.string_of_uint (N.to_uint n).

End Str.

(** ** [checkpoint_epoch] *)

(** [int(checkpoint_name.split('/')[-1].split('.')[-2].split('-')[-1]
          .replace('epoch', ''))] *)
Definition checkpoint_epoch (checkpoint_name : string) : result Z :=
  (seg <-? Py.index (Str.split "/" checkpoint_name) (-1) ;
   stem <-? Py.index (Str.split "." seg) (-2) ;
   tail <-? Py.index (Str.split "-" stem) (-1) ;
   Str.int (Str.replace "epoch" "" tail))%result.

(** ** Computations with state and exceptions *)

Section Stateful.

Context {S : Type}.

(** A computation reads and changes a state of type [S] and returns or
    raises; the state at the moment of the exception is kept. *)
Definition stateful (A : Type) : Type := S -> result A * S.

Definition ret {A} (a : A) : stateful A := fun s => (Ok a, s).

Definition bind {A B} (m : stateful A) (k : A -> stateful B) : stateful B :=
  fun s =>
    match m s with
    | (Ok a, s') => k a s'
    | (Raise e, s') => (Raise e, s')
    end.

Definition lift {A} (r : result A) : stateful A := fun s => (r, s).

End Stateful.

Arguments stateful S A : clear implicits.

Declare Scope stateful_scope.
Delimit Scope stateful_scope with st.
Notation "x <- c ;; k" := (bind c (fun x => k))
  (at level 100, c at next level, k at level 200, right associativity)
  : stateful_scope.
Notation "c ;;; k" := (bind c (fun _ => k))
  (at level 100, k at level 200, right associativity) : stateful_scope.

(** ** The file system *)

(** What the functions see of the file system: the answer of
    [os.listdir] for each directory (none when the directory cannot be
    listed), the paths that exist, and the paths the process is not
    allowed to remove. A listing may name a path that is not in [files]:
    a file may have gone between the listing and its removal. Removing a
    path takes it off [files] and off the listing of its directory. *)
Record FileSystem : Type := mkFS {
  dir_entries : gmap string (list string);
  files : gset string;
  locked : gset string;
}.

Abbreviation io := (stateful FileSystem).

Module os.

Fixpoint ends_with_slash (s : string) : bool :=
  match s with
  | EmptyString => false
  | String c EmptyString => Ascii.eqb c "/"
  | String _ s' => ends_with_slash s'
  end.

(** [os.path.join(a, p)] of posixpath. *)
Definition path_join (a p : string) : string :=
  if String.prefix "/" p then p
  else match a with
       | EmptyString => p
       | _ => if ends_with_slash a then a +:+ p else a +:+ "/" +:+ p
       end.

Definition listdir (path : string) : io (list string) :=
  fun fs =>
    match dir_entries fs !! path with
    | Some names => (Ok names, fs)
    | None => (Raise (FileNotFoundError path), fs)
    end.

(** The listings once the paths of [gone] have been removed: a directory
    no longer lists a name whose path is one of them. *)
Definition unlist (gone : gset string) (entries : gmap string (list string))
  : gmap string (list string) :=
  map_imap (fun d names => Some (filter (fun n => path_join d n ∉ gone) names))
           entries.

(** [os.remove(path)]: the path must exist and be removable. *)
Definition remove (path : string) : io unit :=
  fun fs =>
    if decide (path ∈ files fs) then
      if decide (path ∈ locked fs) then (Raise (PermissionError path), fs)
      else (Ok tt, mkFS (unlist {[path]} (dir_entries fs))
                        (files fs ∖ {[path]}) (locked fs))
    else (Raise (FileNotFoundError path), fs).

End os.

(** ** numpy on arrays of whole numbers *)

Module np.

(** *** From a list of Python integers to an array

    An array is given by the values of its elements. numpy chooses the
    type of the elements from the integers of the list: each integer asks
    for [int64] if it fits, for [uint64] if it lies between 2^63 and
    2^64 - 1, and for [object], which keeps the Python integer, otherwise;
    the requests of two integers are combined, and [int64] with [uint64]
    gives [float64]. An empty list gives an empty array of [float64]. *)
Inductive dtype : Type := int64 | uint64 | float64 | object.

Definition dtype_of (x : Z) : dtype :=
  if (- 2 ^ 63 <=? x) && (x <? 2 ^ 63) then int64
  else if (2 ^ 63 <=? x) && (x <? 2 ^ 64) then uint64
  else object.

Definition promote (a b : dtype) : dtype :=
  match a, b with
  | object, _ | _, object => object
  | float64, _ | _, float64 => float64
  | int64, int64 => int64
  | uint64, uint64 => uint64
  | int64, uint64 | uint64, int64 => float64
  end.

Definition result_dtype (l : list Z) : dtype :=
  match l with
  | [] => float64
  | x :: l' => foldl (fun d y => promote d (dtype_of y)) (dtype_of x) l'
  end.

(** The double nearest to the integer [x], ties going to the even
    significand, as a whole number again. An integer stored as [float64]
    lies between -2^63 and 2^64, where the double is finite and whole. *)
Definition as_float64 (x : Z) : Z :=
  match binary_normalize 53 1024 x 0 false with
  | S754_finite s m e => cond_Zopp s (Z.shiftl (Z.pos m) e)
  | S754_zero _ => 0
  | S754_infinity _ | S754_nan => x
  end.

(** An integer as an element of type [d]. *)
Definition cast (d : dtype) (x : Z) : Z :=
  match d with
  | float64 => as_float64 x
  | int64 | uint64 | object => x
  end.

(** [np.asarray(l)] for a list of Python integers. *)
Definition asarray (l : list Z) : list Z := map (cast (result_dtype l)) l.

(** [np.sort(a)]: the elements of the array [a] in ascending order. *)
Definition sort (a : list Z) : list Z := merge_sort Z.le a.

(** [np.bincount(y)]: the number of occurrences of 0, 1, ..., max(y);
    negative elements are refused. *)
Definition bincount (y : list Z) : result (list Z) :=
  if forallb (Z.leb 0) y then
    Ok (map (fun v => Z.of_nat (length (filter (fun x => x = Z.of_nat v) y)))
            (seq 0 (Z.to_nat (foldr Z.max (-1) y + 1))))
  else Raise ValueError.

(** The first component of [np.unique(y, return_counts=True)]: the
    distinct values of [y] in ascending order. *)
Definition unique (y : list Z) : list Z := sort (remove_dups y).

Definition occurrences (y : list Z) (v : Z) : Z :=
  Z.of_nat (length (filter (fun x => x = v) y)).

(** Its second component: how often each of them occurs. *)
Definition unique_counts (y : list Z) : list Z :=
  map (occurrences y) (unique y).

(** [np.min(a)]; an empty array has no minimum. *)
Definition min (a : list Z) : result Z :=
  match a with
  | [] => Raise ValueError
  | x :: a' => Ok (foldr Z.min x a')
  end.

(** [np.where(y == label)[0]]: the positions of [label], ascending. *)
Definition where_eq (y : list Z) (label : Z) : list nat :=
  filter (fun i => y !! i = Some label) (seq 0 (length y)).

(** [a[idxs]] for an array of positions. *)
Definition take {A} (a : list A) (idxs : list nat) : result (list A) :=
  rmap (fun i => match a !! i with
                 | Some x => Ok x
                 | None => Raise IndexError
                 end) idxs.

End np.

(** ** [list_checkpoints] and [delete_old_ckpts] *)

Definition is_checkpoint_name (model_name i : string) : bool :=
  Str.contains ".pt" i && negb (Str.contains "opt-" i)
  && Str.contains model_name i.

Definition list_checkpoints (save_path model_name : string) : io (list string) :=
  (names <- os.listdir save_path ;;
   ret (map (os.path_join save_path)
            (filter (fun i => is_checkpoint_name model_name i = true) names)))%st.

(** The path of the optimizer file that goes with a checkpoint. *)
Definition companion (checkpoint : string) : string :=
  Str.replace ".pt" ".tar"
    (Str.replace "checkpoint-" "opt-checkpoint_" checkpoint).

(** [checkpoint_epoch(checkpoint) in np.sort(saved_epochs)[:-num_save]].
    [np.sort] makes an array of the list before it sorts, and [in]
    compares the epoch, as a value of the type of the elements, with each
    element of the slice. The epoch is one of [saved_epochs] wherever
    [delete_old_ckpts] asks. *)
Definition doomed (saved_epochs : list Z) (num_save : Z) (checkpoint : string)
  : result bool :=
  (e <-? checkpoint_epoch checkpoint ;
   Ok (Py.mem (np.cast (np.result_dtype saved_epochs) e)
              (Py.slice_to (np.sort (np.asarray saved_epochs)) (- num_save))))%result.

(** [[os.remove(target(c)) for c in checkpoints if cond(c)]] *)
Fixpoint remove_each (target : string -> string) (cond : string -> result bool)
    (checkpoints : list string) : io unit :=
  match checkpoints with
  | [] => ret tt
  | c :: rest =>
      (b <- lift (cond c) ;;
       (if b : bool then os.remove (target c) else ret tt) ;;;
       remove_each target cond rest)%st
  end.

Definition delete_old_ckpts (save_path model_name : string) (num_save : Z)
  : io unit :=
  (checkpoints <- list_checkpoints save_path model_name ;;
   saved_epochs <- lift (rmap checkpoint_epoch checkpoints) ;;
   remove_each id (doomed saved_epochs num_save) checkpoints ;;;
   remove_each companion (doomed saved_epochs num_save) checkpoints)%st.

(** The checkpoints that [delete_old_ckpts] removes: those whose epoch is
    found in the slice. *)
Definition is_victim (saved_epochs : list Z) (num_save : Z) (c : string) : bool :=
  match doomed saved_epochs num_save c with
  | Ok b => b
  | Raise _ => false
  end.

Definition victims (saved_epochs : list Z) (num_save : Z)
    (checkpoints : list string) : list string :=
  filter (fun c => is_victim saved_epochs num_save c = true) checkpoints.

(** The file system after the paths of [gone] have been removed. *)
Definition without (fs : FileSystem) (gone : list string) : FileSystem :=
  mkFS (os.unlist (list_to_set gone) (dir_entries fs))
       (files fs ∖ list_to_set gone) (locked fs).

(** *** A directory to try the functions on *)

Definition ckpt_names (l : list string) : list string :=
  map (fun n => "checkpoint-epoch" +:+ n +:+ ".pt") l.

Definition opt_names (l : list string) : list string :=
  map (fun n => "opt-checkpoint_epoch" +:+ n +:+ ".tar") l.

Definition in_runs (names : list string) : gset string :=
  list_to_set (map (os.path_join "runs") names).

(** The directory [runs] lists [names]; of these, [present] exist and
    [refused] cannot be removed. *)
Definition fs_runs (names present refused : list string) : FileSystem :=
  mkFS {[ "runs" := names ]}
       (in_runs present) (in_runs refused).

(** Five checkpoints, epochs 1 to 5, each with its optimizer file. *)
Definition five_names : list string :=
  ckpt_names ["1"; "2"; "3"; "4"; "5"] ++ opt_names ["1"; "2"; "3"; "4"; "5"].

Definition fs_five : FileSystem := fs_runs five_names five_names [].

(** Four checkpoints without optimizer files. *)
Definition fs_no_opt : FileSystem :=
  let names := ckpt_names ["1"; "2"; "3"; "4"] in fs_runs names names [].

(** The five checkpoints, the first of which cannot be removed. *)
Definition fs_refused : FileSystem :=
  fs_runs five_names five_names (ckpt_names ["1"]).

(** The five checkpoints, the second of which has gone since the
    listing. *)
Definition fs_vanished : FileSystem :=
  fs_runs five_names
          (ckpt_names ["1"; "3"; "4"; "5"] ++ opt_names ["1"; "2"; "3"; "4"; "5"])
          [].

(** Two files for epoch 2. *)
Definition dup_names : list string :=
  ckpt_names ["1"; "2"; "02"; "3"] ++ opt_names ["1"; "2"; "02"; "3"].

Definition fs_dup : FileSystem := fs_runs dup_names dup_names [].

(** A name whose epoch cannot be read. *)
Definition fs_unreadable : FileSystem :=
  let names := ckpt_names ["1"; "2"; "3"; "4"] ++ ["checkpoint-final.pt"] in
  fs_runs names names [].


(** ** numpy's random generator *)

(** The operations of [np.random] that [balanced_dataset] calls. The
    generator is global state; [seed n] is the state that
    [np.random.seed(n)] installs, whatever the state was before. *)
Class RandomState : Type := {
  rng : Type;
  seed : Z -> rng;
  (** [np.random.choice(a, size, replace=...)] *)
  choice : list nat -> Z -> bool -> stateful rng (list nat);
  (** [np.random.permutation(a)] *)
  permutation : list nat -> stateful rng (list nat);
}.

(** What is assumed of the generator: a draw without replacement of at
    most [len(a)] elements returns that many elements of [a], each
    position of [a] used at most once; a draw with replacement from a
    non-empty [a] returns [size] elements of [a]; a permutation is a
    permutation. *)
Class LawfulRandom (R : RandomState) : Prop := {
  choice_without_replacement :
    forall a size g,
      0 <= size <= Z.of_nat (length a) ->
      exists l rest g',
        choice a size false g = (Ok l, g')
        /\ length l = Z.to_nat size
        /\ Permutation (l ++ rest) a;
  choice_with_replacement :
    forall a size g,
      0 <= size -> a <> [] ->
      exists l g',
        choice a size true g = (Ok l, g')
        /\ length l = Z.to_nat size
        /\ Forall (fun i => In i a) l;
  permutation_permutes :
    forall a g,
      exists l g', permutation a g = (Ok l, g') /\ Permutation a l;
}.

(** *** A small generator to run the model with *)

Module Lcg.

Definition next (g : Z) : Z := (1103515245 * g + 12345) mod 2147483648.

(** Position in a pool of [n > 0] elements chosen by the state [g]. *)
Definition pick (g : Z) (n : nat) : nat := Z.to_nat (g mod Z.of_nat n).

Fixpoint draw_without (n : nat) (pool : list nat) (g : Z) : list nat * Z :=
  match n with
  | O => ([], g)
  | S n' =>
      let g1 := next g in
      let i := pick g1 (length pool) in
      match pool !! i with
      | Some x =>
          let '(l, g2) := draw_without n' (delete i pool) g1 in (x :: l, g2)
      | None => ([], g1)
      end
  end.

Fixpoint draw_with (n : nat) (pool : list nat) (g : Z) : list nat * Z :=
  match n with
  | O => ([], g)
  | S n' =>
      let g1 := next g in
      match pool !! pick g1 (length pool) with
      | Some x => let '(l, g2) := draw_with n' pool g1 in (x :: l, g2)
      | None => ([], g1)
      end
  end.

Definition choice (a : list nat) (size : Z) (replace : bool)
  : stateful Z (list nat) :=
  fun g =>
    if size <? 0 then (Raise ValueError, g)
    else if replace then
      if (0 <? size) && (Nat.eqb (length a) 0) then (Raise ValueError, g)
      else let '(l, g') := draw_with (Z.to_nat size) a g in (Ok l, g')
    else
      if Z.of_nat (length a) <? size then (Raise ValueError, g)
      else let '(l, g') := draw_without (Z.to_nat size) a g in (Ok l, g').

Definition permutation (a : list nat) : stateful Z (list nat) :=
  fun g => let '(l, g') := draw_without (length a) a g in (Ok l, g').

End Lcg.

Definition lcg : RandomState := {|
  rng := Z;
  seed := fun n => n;
  choice := Lcg.choice;
  permutation := Lcg.permutation;
|}.

(** ** [balanced_dataset] *)

Section Balanced.

Context {R : RandomState}.

(** [np.random.seed(n)]: the state of the generator is replaced. *)
Definition random_seed (n : Z) : stateful rng unit :=
  fun _ => (Ok tt, seed n).

(** Lines 104 to 107: the number of indices drawn for each class. *)
Definition minority_of (y : list Z) (min_size : option Z) : result Z :=
  let labels := np.unique y in
  let counts := np.unique_counts y in
  (minority <-? np.min counts ;
   Ok (match min_size with
       | Some m => Z.max minority (m / Z.of_nat (length labels))
       | None => minority
       end))%result.

(** The body of the loop of lines 109 to 114, for one label. *)
Definition draw_label (y : list Z) (minority : Z) (label : Z)
  : stateful rng (list nat) :=
  let label_idxs := np.where_eq y label in
  if Z.of_nat (length label_idxs) >=? minority
  then choice label_idxs minority false
  else choice label_idxs minority true.

(** The loop: [idxs] grows by the draw of each label in turn. *)
Fixpoint draw_labels (y : list Z) (minority : Z) (labels : list Z)
    (idxs : list nat) : stateful rng (list nat) :=
  match labels with
  | [] => ret idxs
  | label :: rest =>
      (drawn <- draw_label y minority label ;;
       draw_labels y minority rest (idxs ++ drawn))%st
  end.

(** Lines 102 to 115: the permuted list of selected positions, before
    [max_size] is looked at. *)
Definition balanced_idxs (y : list Z) (min_size : option Z)
  : stateful rng (list nat) :=
  (random_seed 0 ;;;
   _ <- lift (np.bincount y) ;;
   minority <- lift (minority_of y min_size) ;;
   idxs <- draw_labels y minority (np.unique y) [] ;;
   permutation idxs)%st.

(** [if max_size:] holds for an integer other than zero. *)
Definition truthy (max_size : option Z) : bool :=
  match max_size with
  | Some m => negb (m =? 0)
  | None => false
  end.

(** Lines 116 and 117. *)
Definition truncate (max_size : option Z) (idxs : list nat) : list nat :=
  if truthy max_size then
    match max_size with
    | Some m => Py.slice_to idxs m
    | None => idxs
    end
  else idxs.

(** Line 118: [X[idxs], y[idxs]]. *)
Definition select {A} (X : list A) (y : list Z) (idxs : list nat)
  : result (list A * list Z) :=
  (Xs <-? np.take X idxs ; ys <-? np.take y idxs ; Ok (Xs, ys))%result.

Definition balanced_dataset {A} (X : list A) (y : list Z)
    (max_size min_size : option Z) : stateful rng (list A * list Z) :=
  (idxs <- balanced_idxs y min_size ;;
   lift (select X y (truncate max_size idxs)))%st.

End Balanced.

(** *** Measures of a selection *)

(** The classes of a labelled data set, and how many there are. *)
Definition classes (y : list Z) : gset Z := list_to_set y.

Definition number_of_classes (y : list Z) : Z := Z.of_nat (size (classes y)).

(** How often the class [label] is selected by [idxs]. *)
Definition label_count (y : list Z) (label : Z) (idxs : list nat) : nat :=
  length (filter (fun i => y !! i = Some label) idxs).

(** What one turn of the loop contributes for [label]: [minority]
    positions of that class, without repetition when the class is large
    enough to be drawn without replacement. *)
Definition part_of (y : list Z) (minority : Z) (label : Z) (part : list nat)
  : Prop :=
  length part = Z.to_nat minority
  /\ Forall (fun i => y !! i = Some label) part
  /\ (minority <= Z.of_nat (length (np.where_eq y label)) -> NoDup part).

(** *** Data to try the function on *)

(** Twenty samples, ten of class 0 and ten of class 1; the feature of a
    sample is its position. *)
Definition y_twenty : list Z := repeat 0 10 ++ repeat 1 10.

Definition X_twenty : list nat := seq 0 20.

(** Two samples, one of each class. *)
Definition y_two : list Z := [0; 1].

Definition X_two : list string := ["a"; "b"]%string.

(** Six samples in three classes of two, three and one samples. *)
Definition y_six : list Z := [0; 1; 1; 0; 1; 2].

Definition X_six : list string := ["a"; "b"; "c"; "d"; "e"; "f"]%string.

(** ** The specification's own words, to compare the code with *)

(** "Sort distinct epoch values ascending; the set of epochs to delete is
    all but the [keep] largest epoch values." *)
Definition spec_delete_set (epochs : list Z) (keep : Z) : list Z :=
  let distinct := np.unique epochs in
  firstn (length distinct - Z.to_nat keep)%nat distinct.

(** "If maxSize given, truncate the permuted index list to its first
    maxSize entries." *)
Definition spec_truncate (max_size : option Z) (idxs : list nat) : list nat :=
  match max_size with
  | Some m => firstn (Z.to_nat m) idxs
  | None => idxs
  end.

(** ** [GaussianBlur]: the size of the kernel *)

(** [np.arange(start, stop)] for integers. *)
Definition np_arange (start stop : Z) : list Z := seqZ start (stop - start).

(** The two integers that [GaussianBlur.__init__] keeps: the kernel size
    [k] of the two convolutions and the radius [r] of the reflection
    padding. The layers themselves belong to torch. *)
Record GaussianBlur : Type := mkBlur {
  blur_k : Z;
  blur_r : Z;
}.

(** Lines 157, 158, 163 and 164. *)
Definition gaussian_blur_init (kernel_size : Z) : GaussianBlur :=
  let radias := kernel_size / 2 in
  let kernel_size := radias * 2 + 1 in
  mkBlur kernel_size radias.

(** Line 179: the positions at which [__call__] evaluates the Gaussian,
    one weight of the kernel for each. *)
Definition blur_taps (b : GaussianBlur) : list Z :=
  np_arange (- blur_r b) (blur_r b + 1).

(** ** [CustomDataset] and [ContrastiveDataset] *)

Section Datasets.

(** [W] is what loading and transforming may read and change: the file
    system, the random generator of an augmentation. *)
Context {W Img Target View : Type}.

(** [np.array(Image.open(path))] *)
Variable open_image : string -> stateful W Img.

Record CustomDataset : Type := mkCustom {
  cd_train : bool;
  cd_X : list string;
  cd_y : list Target;
  cd_transform : option (Img -> stateful W Img);
  cd_target_transform : option (Target -> stateful W Target);
}.

(** [__init__]: [None] stands for the [AssertionError] of
    [assert len(self.X) == len(self.y)]. *)
Definition custom_dataset_init (X : list string) (y : list Target)
    (train : bool) (transform : option (Img -> stateful W Img))
    (target_transform : option (Target -> stateful W Target))
  : option CustomDataset :=
  if Nat.eqb (length X) (length y)
  then Some (mkCustom train X y transform target_transform)
  else None.

(** [__len__] *)
Definition custom_len (ds : CustomDataset) : nat := length (cd_X ds).

(** [if f is not None: a = f(a)] *)
Definition apply_if_given {A} (f : option (A -> stateful W A)) (a : A)
  : stateful W A :=
  match f with
  | Some f => f a
  | None => ret a
  end.

(** What [__getitem__] does with the path and the target it has found. *)
Definition load_item (ds : CustomDataset) (path : string) (target : Target)
  : stateful W (Img * Target) :=
  (img <- open_image path ;;
   img <- apply_if_given (cd_transform ds) img ;;
   target <- apply_if_given (cd_target_transform ds) target ;;
   ret (img, target))%st.

(** [__getitem__] *)
Definition custom_getitem (ds : CustomDataset) (index : Z)
  : stateful W (Img * Target) :=
  (path <- lift (Py.index (cd_X ds) index) ;;
   target <- lift (Py.index (cd_y ds) index) ;;
   load_item ds path target)%st.

(** [extra_repr] *)
Definition custom_extra_repr (ds : CustomDataset) : string :=
  "Split: " +:+ (if cd_train ds then "Train" else "Test").

Record ContrastiveDataset : Type := mkContrastive {
  cv_X : list Img;
  cv_n_views : Z;
  cv_transform : Img -> stateful W View;
}.

Definition contrastive_len (ds : ContrastiveDataset) : nat := length (cv_X ds).

(** [[transform(img) for i in range(n)]] *)
Fixpoint views (transform : Img -> stateful W View) (n : nat) (img : Img)
  : stateful W (list View) :=
  match n with
  | O => ret []
  | S n' =>
      (v <- transform img ;;
       vs <- views transform n' img ;;
       ret (v :: vs))%st
  end.

(** [called transform img w vs w']: calling [transform] on [img] once
    for each element of [vs], one call after the other from the state
    [w], returns these elements in this order and ends in the state
    [w']. *)
Inductive called (transform : Img -> stateful W View) (img : Img)
  : W -> list View -> W -> Prop :=
  | called_nil (w : W) : called transform img w [] w
  | called_cons (w w1 w' : W) (v : View) (vs : list View) :
      transform img w = (Ok v, w1) ->
      called transform img w1 vs w' ->
      called transform img w (v :: vs) w'.

(** [__getitem__] *)
Definition contrastive_getitem (ds : ContrastiveDataset) (index : Z)
  : stateful W (list View) :=
  (img <- lift (Py.index (cv_X ds) index) ;;
   views (cv_transform ds) (Z.to_nat (cv_n_views ds)) img)%st.

End Datasets.

(** *** Data sets to try the functions on *)

(** Opening succeeds for the paths that exist; the image is named by its
    path. *)
Definition open_existing (path : string) : io string :=
  fun fs =>
    if decide (path ∈ files fs) then (Ok path, fs)
    else (Raise (FileNotFoundError path), fs).

(** Two labelled files, without transforms. *)
Definition labelled_files : @CustomDataset FileSystem string Z :=
  mkCustom true ["runs/a.png"; "runs/b.png"] [0; 1] None None.

(** An augmentation that marks the image with a number it draws. *)
Definition tag_view (img : string) : stateful Z (string * Z) :=
  fun g => (Ok (img, Lcg.next g), Lcg.next g).

Definition two_views : @ContrastiveDataset Z string (string * Z) :=
  mkContrastive ["a"; "b"] 2 tag_view.

(** ** [adjust_learning_rate] *)

(** Decimal constants stand for the nearest binary64 number, as in
    Python. *)
Set Warnings "-inexact-float".

Module Lr.

(** The exceptions of this function: the [ValueError] of an unknown
    schedule, with its message, the [ZeroDivisionError] of
    [(epoch - 1) / args.epochs], and the [OverflowError] of an integer or
    a quotient of integers that is too large for a float. *)
Inductive error : Type :=
  | ValueError (message : string)
  | ZeroDivisionError
  | OverflowError.

Inductive outcome (A : Type) : Type :=
  | Returns (a : A)
  | Raises (e : error).

Arguments Returns {A} a.
Arguments Raises {A} e.

Definition obind {A B} (c : outcome A) (k : A -> outcome B) : outcome B :=
  match c with
  | Returns a => k a
  | Raises e => Raises e
  end.

Declare Scope outcome_scope.
Delimit Scope outcome_scope with outcome.
Notation "x <-! c ; k" := (obind c (fun x => k))
  (at level 100, c at next level, k at level 200, right associativity)
  : outcome_scope.

(** The fields of [args] that the function reads. *)
Record Args : Type := mkArgs {
  lr : float;
  lr_schedule : string;
  epochs : Z;
}.

(** A value of a parameter group: the learning rate is a float, the
    parameters and the other settings are of some type [O]. *)
Inductive value (O : Type) : Type :=
  | Float (f : float)
  | Other (o : O).

Arguments Float {O} f.
Arguments Other {O} o.

(** A rounded result as a float: where rounding leaves the range of the
    doubles, Python raises [OverflowError]. *)
Definition checked (x : spec_float) : outcome float :=
  match x with
  | S754_infinity _ => Raises OverflowError
  | S754_zero _ | S754_finite _ _ _ | S754_nan => Returns (SF2Prim x)
  end.

(** [float(n)]: the double nearest to the integer [n], ties going to the
    even significand. *)
Definition of_int (n : Z) : outcome float :=
  checked (binary_normalize 53 1024 n 0 false).

(** [c * n] for a float and an integer: the integer becomes a float
    first. *)
Definition float_times_int (c : float) (n : Z) : outcome float :=
  (f <-! of_int n ; Returns (c * f)%float)%outcome.

(** [n >= f] for an integer and a float: Python compares the two numbers
    as they are, without rounding the integer. *)
Definition int_ge (n : Z) (f : float) : bool :=
  match Prim2SF f with
  | S754_nan => false
  | S754_infinity s => s
  | S754_zero _ => 0 <=? n
  | S754_finite s m e =>
      if 0 <=? e then cond_Zopp s (Z.pos m * 2 ^ e) <=? n
      else cond_Zopp s (Z.pos m) <=? n * 2 ^ (- e)
  end.

(** [a / b] for two integers: the double nearest to the quotient. *)
Definition true_div (a b : Z) : outcome float :=
  if b =? 0 then Raises ZeroDivisionError
  else if a =? 0 then Returns (if b <? 0 then neg_zero else zero)
  else
    let '(q, e, l) := SFdiv_core_binary 53 1024 (Z.abs a) 0 (Z.abs b) 0 in
    checked (binary_round_aux 53 1024 (xorb (a <? 0) (b <? 0)) q e l).

(** [np.pi] *)
Definition pi : float := 3.141592653589793%float.

Section Schedule.

(** [np.cos] *)
Variable cos : float -> float.

(** Lines 122 to 148: the learning rate of the epoch. *)
Definition scheduled_lr (args : Args) (epoch : Z) : outcome float :=
  let schedule := lr_schedule args in
  if String.eqb schedule "trades" then
    (t <-! float_times_int 0.75 (epochs args) ;
     Returns (if int_ge epoch t then (lr args * 0.1)%float else lr args))%outcome
  else if String.eqb schedule "trades_fixed" then
    (t1 <-! float_times_int 0.75 (epochs args) ;
     let lr1 := if int_ge epoch t1 then (lr args * 0.1)%float else lr args in
     t2 <-! float_times_int 0.9 (epochs args) ;
     let lr2 := if int_ge epoch t2 then (lr args * 0.01)%float else lr1 in
     Returns (if epochs args <=? epoch then (lr args * 0.001)%float else lr2))%outcome
  else if String.eqb schedule "cosine" then
    (q <-! true_div (epoch - 1) (epochs args) ;
     Returns (lr args * 0.5 * (1 + cos (q * pi)))%float)%outcome
  else if String.eqb schedule "wrn" then
    (t1 <-! float_times_int 0.3 (epochs args) ;
     let lr1 := if int_ge epoch t1 then (lr args * 0.2)%float else lr args in
     t2 <-! float_times_int 0.6 (epochs args) ;
     let lr2 := if int_ge epoch t2 then (lr args * 0.2 * 0.2)%float else lr1 in
     t3 <-! float_times_int 0.8 (epochs args) ;
     Returns (if int_ge epoch t3 then (lr args * 0.2 * 0.2 * 0.2)%float else lr2))%outcome
  else Raises (ValueError ("Unkown LR schedule " +:+ schedule)).

(** The function: the parameter groups of the optimizer are the state;
    each of them gets the learning rate under the key [lr]. *)
Definition adjust_learning_rate {O} (args : Args)
    (param_groups : list (gmap string (value O))) (epoch : Z)
  : outcome float * list (gmap string (value O)) :=
  match scheduled_lr args epoch with
  | Returns new_lr =>
      (Returns new_lr, map (insert "lr" (Float new_lr)) param_groups)
  | Raises e => (Raises e, param_groups)
  end.

End Schedule.

End Lr.

(** An optimizer with two parameter groups. *)
Definition two_groups : list (gmap string (Lr.value bool)) :=
  [ {[ "lr" := Lr.Float 0.1%float; "nesterov" := Lr.Other true ]};
    {[ "lr" := Lr.Float 0.01%float; "momentum" := Lr.Float 0.9%float ]} ].

(** ** Further measures *)

(** How many of the epochs are at least [e]. *)
Definition at_least (e : Z) (epochs : list Z) : nat :=
  length (filter (fun x => e <= x) epochs).

(** * Properties *)

(** ** Runs of the model *)

Example checkpoint_epoch_ex1 :
  checkpoint_epoch "runs/model-epoch-12.pt" = Ok 12.
Proof. reflexivity. Qed.

Example checkpoint_epoch_ex2 :
  checkpoint_epoch "runs/checkpoint-epoch7.pt" = Ok 7.
Proof. reflexivity. Qed.

Example checkpoint_epoch_ex3 :
  checkpoint_epoch "runs/checkpoint" = Raise IndexError.
Proof. reflexivity. Qed.

Example checkpoint_epoch_ex4 :
  checkpoint_epoch "runs/checkpoint-final.pt" = Raise ValueError.
Proof. reflexivity. Qed.

Example list_checkpoints_five :
  fst (list_checkpoints "runs" "" fs_five)
  = Ok (map (os.path_join "runs") (ckpt_names ["1"; "2"; "3"; "4"; "5"])).
Proof. reflexivity. Qed.

Example delete_old_ckpts_five :
  let '(r, fs') := delete_old_ckpts "runs" "" 3 fs_five in
  r = Ok tt
  /\ files fs' = in_runs (ckpt_names ["3"; "4"; "5"] ++ opt_names ["3"; "4"; "5"]).
Proof. vm_compute. split; reflexivity. Qed.

(** ** Sequences *)

Lemma index_last {A} (l : list A) (x : A) :
  Py.index (l ++ [x]) (-1) = Ok x.
Proof.
  unfold Py.index. rewrite length_app, Nat.add_1_r. cbn [length].
  replace (-1 <? 0) with true by reflexivity.
  replace (-1 + Z.of_nat (S (length l))) with (Z.of_nat (length l)) by lia.
  replace (Z.of_nat (length l) <? 0) with false by (symmetry; apply Z.ltb_ge; lia).
  replace (Z.of_nat (S (length l)) <=? Z.of_nat (length l)) with false
    by (symmetry; apply Z.leb_gt; lia).
  cbn [orb]. rewrite Nat2Z.id.
  rewrite nth_error_app2 by lia. rewrite Nat.sub_diag. reflexivity.
Qed.

Lemma index_before_last {A} (l : list A) (x y : A) :
  Py.index (l ++ [x; y]) (-2) = Ok x.
Proof.
  unfold Py.index. rewrite length_app. cbn [length].
  replace (-2 <? 0) with true by reflexivity.
  replace (-2 + Z.of_nat (length l + 2)) with (Z.of_nat (length l)) by lia.
  replace (Z.of_nat (length l) <? 0) with false by (symmetry; apply Z.ltb_ge; lia).
  replace (Z.of_nat (length l + 2) <=? Z.of_nat (length l)) with false
    by (symmetry; apply Z.leb_gt; lia).
  cbn [orb]. rewrite Nat2Z.id.
  rewrite nth_error_app2 by lia. rewrite Nat.sub_diag. reflexivity.
Qed.

(** ** Strings *)

Lemma append_nil (b : string) : EmptyString +:+ b = b.
Proof. reflexivity. Qed.

Lemma append_cons (c : ascii) (a b : string) :
  String c a +:+ b = String c (a +:+ b).
Proof. reflexivity. Qed.

Ltac push_append := rewrite ?append_cons, ?append_nil.

Lemma append_assoc (a b c : string) : (a +:+ b) +:+ c = a +:+ (b +:+ c).
Proof.
  induction a as [|x a IH]; push_append; [reflexivity | now rewrite IH].
Qed.

Lemma all_chars_app p (a b : string) :
  Str.all_chars p (a +:+ b) = Str.all_chars p a && Str.all_chars p b.
Proof.
  induction a as [|x a IH]; push_append; cbn; [reflexivity|].
  rewrite IH. now rewrite andb_assoc.
Qed.

Lemma split_nonempty sep s : Str.split sep s <> [].
Proof.
  destruct s as [|c s]; cbn; [discriminate|].
  destruct (Ascii.eqb c sep); [discriminate|].
  destruct (Str.split sep s); discriminate.
Qed.

(** Splitting at an occurrence of the separator splits the list of
    fields. *)
Lemma split_app_sep sep (a b : string) :
  Str.split sep (a +:+ String sep b) = Str.split sep a ++ Str.split sep b.
Proof.
  induction a as [|c a IH]; push_append; cbn.
  - now rewrite Ascii.eqb_refl.
  - destruct (Ascii.eqb c sep); [now rewrite IH|].
    rewrite IH. destruct (Str.split sep a) eqn:E; [|reflexivity].
    now apply split_nonempty in E.
Qed.

Lemma split_free sep (b : string) :
  Str.free_of sep b = true -> Str.split sep b = [b].
Proof.
  unfold Str.free_of. induction b as [|c b IH]; cbn; [reflexivity|].
  intros H. apply andb_prop in H as [Hc Hb].
  apply negb_true_iff in Hc. rewrite Hc, (IH Hb). reflexivity.
Qed.

(** Text without the separator, put after a string, extends its last
    field. *)
Lemma split_app_free sep (a b : string) :
  Str.free_of sep b = true ->
  exists l h,
    Str.split sep a = l ++ [h] /\ Str.split sep (a +:+ b) = l ++ [h +:+ b].
Proof.
  intros Hb. induction a as [|c a (l & h & Ea & Eab)]; push_append; cbn.
  - exists [], EmptyString. split; [reflexivity|]. now apply split_free.
  - destruct (Ascii.eqb c sep).
    + exists (EmptyString :: l), h. rewrite Ea, Eab. now split.
    + rewrite Ea, Eab. destruct l as [|h0 l]; cbn.
      * exists [], (String c h). now split.
      * exists (String c h0 :: l), h. now split.
Qed.

(** A replacement leaves alone a string in which the first character of
    [old] does not occur. *)
Lemma replace_from_free old0 old new (s : string) :
  Str.free_of old0 s = true ->
  Str.replace_from (String old0 old) new 0 s = s.
Proof.
  unfold Str.free_of. induction s as [|c s IH]; [reflexivity|].
  intros H. cbn in H. apply andb_prop in H as [Hc Hs].
  apply negb_true_iff in Hc.
  cbn [Str.replace_from String.prefix].
  destruct (ascii_dec old0 c) as [->|Hne].
  - rewrite Ascii.eqb_refl in Hc. discriminate.
  - now rewrite (IH Hs).
Qed.

(** *** Decimal digits *)

Lemma digit_not (c d : ascii) :
  Str.is_digit c = true -> Str.is_digit d = false -> Ascii.eqb c d = false.
Proof.
  intros Hc Hd. destruct (Ascii.eqb_spec c d) as [->|]; [congruence|reflexivity].
Qed.

Lemma digits_free_of (d : ascii) (s : string) :
  Str.is_digit d = false -> Str.digits_only s = true -> Str.free_of d s = true.
Proof.
  intros Hd. unfold Str.digits_only, Str.free_of.
  induction s as [|c s IH]; cbn; [reflexivity|].
  intros H. apply andb_prop in H as [Hc Hs].
  now rewrite (digit_not c d Hc Hd), (IH Hs).
Qed.

Lemma lstrip_digits (s : string) : Str.digits_only s = true -> Str.lstrip s = s.
Proof.
  destruct s as [|c s]; cbn; [reflexivity|].
  intros H. apply andb_prop in H as [Hc _].
  destruct (Str.is_space c) eqn:E; [|reflexivity].
  exfalso. unfold Str.is_digit, Str.is_space in *.
  rewrite ?andb_true_iff, ?orb_true_iff, ?andb_true_iff, ?Nat.leb_le,
    ?Nat.eqb_eq in *.
  lia.
Qed.

Lemma rstrip_digits (s : string) : Str.digits_only s = true -> Str.rstrip s = s.
Proof.
  induction s as [|c s IH]; cbn; [reflexivity|].
  intros H. apply andb_prop in H as [Hc Hs]. rewrite (IH Hs).
  destruct s; [|reflexivity].
  destruct (Str.is_space c) eqn:E; [|reflexivity].
  exfalso. unfold Str.is_digit, Str.is_space in *.
  rewrite ?andb_true_iff, ?orb_true_iff, ?andb_true_iff, ?Nat.leb_le,
    ?Nat.eqb_eq in *.
  lia.
Qed.

Lemma digits_of_uint (d : Decimal.uint) :
  Str.digits_only (NilEmpty.string_of_uint d) = true.
Proof. induction d; cbn; auto. Qed.

(** Reading the digits of [d] after a non-zero accumulator. *)
Lemma parse_digits_of_uint_pos (d : Decimal.uint) (acc : positive) :
  Str.parse_digits (Z.pos acc) true (NilEmpty.string_of_uint d)
  = Some (Z.pos (Pos.of_uint_acc d acc)).
Proof.
  revert acc.
  induction d as [|d IH|d IH|d IH|d IH|d IH|d IH|d IH|d IH|d IH|d IH];
    intros acc; [reflexivity|..];
    cbn [NilEmpty.string_of_uint Str.parse_digits Pos.of_uint_acc];
    match goal with
    | |- context [Str.is_digit ?c] =>
        replace (Str.is_digit c) with true by reflexivity
    end;
    match goal with
    | |- context [Str.digit_value ?c] =>
        let v := eval vm_compute in (Str.digit_value c) in
        change (Str.digit_value c) with v
    end;
    match goal with
    | |- Str.parse_digits ?a _ _ = Some (Z.pos (Pos.of_uint_acc _ ?b)) =>
        replace a with (Z.pos b) by lia
    end;
    apply IH.
Qed.

(** Reading them from the start: leading zeros are allowed. *)
Lemma parse_digits_of_uint_zero (d : Decimal.uint) :
  Str.parse_digits 0 true (NilEmpty.string_of_uint d)
  = Some (Z.of_N (Pos.of_uint d)).
Proof.
  induction d as [|d IH|d IH|d IH|d IH|d IH|d IH|d IH|d IH|d IH|d IH];
    [reflexivity | exact IH | ..];
    cbn [NilEmpty.string_of_uint Str.parse_digits Pos.of_uint];
    match goal with
    | |- context [Str.is_digit ?c] =>
        replace (Str.is_digit c) with true by reflexivity
    end;
    match goal with
    | |- Str.parse_digits ?a _ _ = Some (Z.of_N (N.pos (Pos.of_uint_acc _ ?b))) =>
        replace a with (Z.pos b) by reflexivity
    end;
    apply parse_digits_of_uint_pos.
Qed.

Lemma parse_digits_of_uint (d : Decimal.uint) :
  d <> Decimal.Nil ->
  Str.parse_digits 0 false (NilEmpty.string_of_uint d)
  = Some (Z.of_N (N.of_uint d)).
Proof.
  intros Hd. rewrite <- parse_digits_of_uint_zero.
  destruct d; [congruence | reflexivity ..].
Qed.

Lemma to_uint_nonnil (n : N) : N.to_uint n <> Decimal.Nil.
Proof.
  destruct n as [|p]; [discriminate|]. apply DecimalPos.Unsigned.to_uint_nonnil.
Qed.

(** [int(str(n))] is [n]. *)
Lemma int_of_N (n : N) : Str.int (Str.of_N n) = Ok (Z.of_N n).
Proof.
  unfold Str.int, Str.of_N.
  pose proof (digits_of_uint (N.to_uint n)) as Hd.
  pose proof (to_uint_nonnil n) as Hn.
  rewrite (lstrip_digits _ Hd), (rstrip_digits _ Hd).
  pose proof (parse_digits_of_uint _ Hn) as Hp.
  rewrite DecimalN.Unsigned.of_to in Hp.
  destruct (NilEmpty.string_of_uint (N.to_uint n)) as [|c s] eqn:E.
  - cbn in Hp. discriminate.
  - cbn in Hd. apply andb_prop in Hd as [Hc _].
    rewrite (digit_not c "-" Hc eq_refl), (digit_not c "+" Hc eq_refl).
    now rewrite Hp.
Qed.

(** ** [checkpoint_epoch] *)

Lemma of_N_free_of (d : ascii) (n : N) :
  Str.is_digit d = false -> Str.free_of d (Str.of_N n) = true.
Proof. intros Hd. apply digits_free_of; [exact Hd | apply digits_of_uint]. Qed.

(** C8. For every name [prefix-epoch-N.ext], where [N] is the decimal
    writing of a natural number and the extension [ext] contains neither a
    dot nor a path separator, [checkpoint_epoch] returns [N]. The prefix
    is arbitrary: it may contain dashes, dots and directories. *)
Theorem checkpoint_epoch_roundtrip (prefix ext : string) (n : N) :
  Str.free_of "." ext = true ->
  Str.free_of "/" ext = true ->
  checkpoint_epoch (prefix +:+ "-epoch-" +:+ Str.of_N n +:+ "." +:+ ext)
  = Ok (Z.of_N n).
Proof.
  intros Hdot Hslash.
  assert (Hrest : Str.free_of "/" ("-epoch-" +:+ Str.of_N n +:+ "." +:+ ext) = true).
  { unfold Str.free_of in *. rewrite !all_chars_app.
    fold (Str.free_of "/" (Str.of_N n)).
    rewrite (of_N_free_of "/" n eq_refl), Hslash. reflexivity. }
  destruct (split_app_free "/" prefix _ Hrest) as (l & h & _ & E).
  unfold checkpoint_epoch. rewrite E, index_last. cbn [rbind].
  replace (h +:+ "-epoch-" +:+ Str.of_N n +:+ "." +:+ ext)
    with ((h +:+ "-epoch-" +:+ Str.of_N n) +:+ String "." ext)
    by (rewrite !append_assoc; reflexivity).
  rewrite split_app_sep, (split_free "." ext Hdot).
  assert (Hstem : Str.free_of "." ("-epoch-" +:+ Str.of_N n) = true).
  { unfold Str.free_of. rewrite all_chars_app.
    fold (Str.free_of "." (Str.of_N n)).
    now rewrite (of_N_free_of "." n eq_refl). }
  destruct (split_app_free "." h _ Hstem) as (l2 & h2 & _ & E2).
  rewrite E2, <- app_assoc. cbn [app]. rewrite index_before_last. cbn [rbind].
  replace (h2 +:+ "-epoch-" +:+ Str.of_N n)
    with ((h2 +:+ "-epoch") +:+ String "-" (Str.of_N n))
    by (rewrite !append_assoc; reflexivity).
  rewrite split_app_sep, (split_free "-" _ (of_N_free_of "-" n eq_refl)).
  rewrite index_last. cbn [rbind].
  unfold Str.replace.
  rewrite (replace_from_free "e" _ _ _ (of_N_free_of "e" n eq_refl)).
  apply int_of_N.
Qed.

Lemma checkpoint_epoch_roundtrip_witness :
  checkpoint_epoch ("runs/v1.2-model" +:+ "-epoch-" +:+ Str.of_N 12 +:+ "." +:+ "pt")
  = Ok 12.
Proof.
  apply (checkpoint_epoch_roundtrip "runs/v1.2-model" "pt" 12); reflexivity.
Defined.

(** An extension that contains a path separator is not part of the file
    name the function looks at. *)
Example checkpoint_epoch_slash_in_extension :
  checkpoint_epoch ("model" +:+ "-epoch-" +:+ Str.of_N 5 +:+ "." +:+ "p/t")
  = Raise IndexError.
Proof. reflexivity. Qed.

(** ** Removing files *)

Lemma filter_all {A} (P : A -> Prop) `{!forall x, Decision (P x)} (l : list A) :
  (forall x, x ∈ l -> P x) -> filter P l = l.
Proof.
  induction l as [|a l IH]; intros Hall; [reflexivity|].
  rewrite filter_cons_True by (apply Hall; left).
  f_equal. apply IH. intros x Hx. apply Hall. now right.
Qed.

Lemma filter_filter_and {A} (P Q R : A -> Prop) `{!forall x, Decision (P x)}
    `{!forall x, Decision (Q x)} `{!forall x, Decision (R x)} (l : list A) :
  (forall x, R x <-> P x /\ Q x) ->
  filter Q (filter P l) = filter R l.
Proof.
  intros Hiff. induction l as [|a l IH]; [reflexivity|].
  rewrite !filter_cons.
  destruct (decide (P a)) as [Hp|Hp].
  - rewrite filter_cons. destruct (decide (Q a)) as [Hq|Hq].
    + destruct (decide (R a)) as [_|Hr]; [now rewrite IH|].
      exfalso. apply Hr, Hiff. tauto.
    + destruct (decide (R a)) as [Hr|_]; [|exact IH].
      exfalso. apply Hiff in Hr. tauto.
  - destruct (decide (R a)) as [Hr|_]; [|exact IH].
    exfalso. apply Hiff in Hr. tauto.
Qed.

Lemma unlist_empty (entries : gmap string (list string)) :
  os.unlist ∅ entries = entries.
Proof.
  apply map_eq. intros d. unfold os.unlist. rewrite map_lookup_imap.
  destruct (entries !! d) as [names|]; [|reflexivity]. cbn.
  f_equal. apply filter_all. intros n _. set_solver.
Qed.

Lemma unlist_unlist (a b : gset string) (entries : gmap string (list string)) :
  os.unlist b (os.unlist a entries) = os.unlist (a ∪ b) entries.
Proof.
  apply map_eq. intros d. unfold os.unlist. rewrite !map_lookup_imap.
  destruct (entries !! d) as [names|]; [|reflexivity]. cbn.
  f_equal. apply filter_filter_and. intros n. set_solver.
Qed.

Lemma without_nil (fs : FileSystem) : without fs [] = fs.
Proof.
  destruct fs as [d f k]. unfold without. cbn.
  rewrite unlist_empty. f_equal. set_solver.
Qed.

Lemma without_app (fs : FileSystem) (a b : list string) :
  without (without fs a) b = without fs (a ++ b).
Proof.
  unfold without. cbn. rewrite unlist_unlist, list_to_set_app_L.
  f_equal. set_solver.
Qed.

Lemma remove_present (path : string) (fs : FileSystem) :
  path ∈ files fs -> path ∉ locked fs ->
  os.remove path fs = (Ok tt, without fs [path]).
Proof.
  intros Hin Hfree. unfold os.remove, without.
  rewrite decide_True by assumption. rewrite decide_False by assumption.
  cbn [list_to_set foldr]. now rewrite (right_id_L ∅ (∪)).
Qed.

Lemma remove_refused (path : string) (fs : FileSystem) :
  path ∉ files fs \/ path ∈ locked fs ->
  exists e, os.remove path fs = (Raise e, fs).
Proof.
  intros H. unfold os.remove.
  destruct (decide (path ∈ files fs)); [|eauto].
  destruct (decide (path ∈ locked fs)); [eauto|tauto].
Qed.

(** When every epoch can be read, [doomed] answers, and its answer is
    [is_victim]. *)
Lemma doomed_is_victim epochs k c :
  is_ok (checkpoint_epoch c) = true ->
  doomed epochs k c = Ok (is_victim epochs k c).
Proof.
  unfold is_victim, doomed. destruct (checkpoint_epoch c); [reflexivity|discriminate].
Qed.

Lemma victims_cons epochs k c l :
  victims epochs k (c :: l)
  = if is_victim epochs k c then c :: victims epochs k l else victims epochs k l.
Proof.
  unfold victims. rewrite filter_cons.
  destruct (is_victim epochs k c); reflexivity.
Qed.

(** One comprehension, when every removal it asks for can be done. *)
Lemma remove_each_ok target epochs k (l : list string) :
  forall fs,
    (forall c, c ∈ l -> is_ok (checkpoint_epoch c) = true) ->
    NoDup (map target (victims epochs k l)) ->
    (forall p, p ∈ map target (victims epochs k l) ->
               p ∈ files fs /\ p ∉ locked fs) ->
    remove_each target (doomed epochs k) l fs
    = (Ok tt, without fs (map target (victims epochs k l))).
Proof.
  induction l as [|c l IH]; intros fs Hparse Hnd Hin.
  - cbn. now rewrite without_nil.
  - cbn [remove_each]. unfold bind at 1, lift.
    rewrite doomed_is_victim by (apply Hparse; left).
    rewrite victims_cons in *.
    destruct (is_victim epochs k c).
    + cbn [map] in *. apply NoDup_cons in Hnd as [Hfresh Hnd].
      destruct (Hin (target c)) as [Hf Hl]; [left|].
      unfold bind. rewrite (remove_present _ _ Hf Hl).
      rewrite IH.
      * now rewrite without_app.
      * intros c' Hc'. apply Hparse. now right.
      * exact Hnd.
      * intros p Hp. destruct (Hin p) as [Hpf Hpl]; [now right|].
        split; [|exact Hpl]. cbn. apply elem_of_difference. split; [exact Hpf|].
        set_solver.
    + unfold bind, ret. apply IH; [|exact Hnd|exact Hin].
      intros c' Hc'. apply Hparse. now right.
Qed.

Lemma unlist_nothing (fs : FileSystem) :
  dir_entries fs = os.unlist (files fs ∖ files fs) (dir_entries fs).
Proof.
  replace (files fs ∖ files fs) with (∅ : gset string) by set_solver.
  now rewrite unlist_empty.
Qed.


(** A comprehension never creates a file, and the listings lose the
    paths that it removed and nothing else. *)
Lemma remove_each_shrinks target cond (l : list string) :
  forall fs,
    let fs' := snd (remove_each target cond l fs) in
    files fs' ⊆ files fs
    /\ locked fs' = locked fs
    /\ dir_entries fs' = os.unlist (files fs ∖ files fs') (dir_entries fs).
Proof.
  assert (Hsame : forall fs : FileSystem,
            files fs ⊆ files fs /\ locked fs = locked fs
            /\ dir_entries fs = os.unlist (files fs ∖ files fs) (dir_entries fs)).
  { intros fs. split; [reflexivity|]. split; [reflexivity|].
    apply unlist_nothing. }
  induction l as [|c l IH]; intros fs; cbn [remove_each].
  - cbn. apply Hsame.
  - unfold bind at 1, lift. destruct (cond c) as [[|]|e]; cbn -[remove_each].
    + unfold bind, os.remove.
      destruct (decide (target c ∈ files fs)) as [Hin|]; [|cbn; apply Hsame].
      destruct (decide (target c ∈ locked fs)); [cbn; apply Hsame|].
      specialize (IH (mkFS (os.unlist {[target c]} (dir_entries fs))
                           (files fs ∖ {[target c]}) (locked fs))).
      cbn in IH. destruct IH as (H1 & H2 & H3).
      split; [set_solver|]. split; [exact H2|].
      rewrite H3, unlist_unlist. f_equal.
      apply set_eq. intros x. destruct (decide (x = target c)); set_solver.
    + unfold bind, ret. apply IH.
    + apply Hsame.
Qed.

(** A comprehension that is asked to remove a path that is not there
    raises. *)
Lemma remove_each_missing target epochs k (l : list string) :
  forall fs c,
    (forall c, c ∈ l -> is_ok (checkpoint_epoch c) = true) ->
    c ∈ victims epochs k l ->
    target c ∉ files fs ->
    exists e, fst (remove_each target (doomed epochs k) l fs) = Raise e.
Proof.
  induction l as [|c0 l IH]; intros fs c Hparse Hc Hmiss.
  - unfold victims in Hc. cbn in Hc. inversion Hc.
  - cbn [remove_each]. unfold bind at 1, lift.
    rewrite doomed_is_victim by (apply Hparse; left).
    rewrite victims_cons in Hc.
    assert (Hparse' : forall c', c' ∈ l -> is_ok (checkpoint_epoch c') = true)
      by (intros c' Hc'; apply Hparse; now right).
    destruct (is_victim epochs k c0).
    + unfold bind, os.remove.
      destruct (decide (target c0 ∈ files fs)); [|cbn; eauto].
      destruct (decide (target c0 ∈ locked fs)); [cbn; eauto|].
      apply elem_of_cons in Hc as [->|Hc]; [contradiction|].
      apply (IH _ c Hparse' Hc). cbn. set_solver.
    + unfold bind, ret. apply (IH _ c Hparse' Hc Hmiss).
Qed.

(** ** [delete_old_ckpts] *)

Lemma rmap_ok_all {A B} (f : A -> result B) (l : list A) (ys : list B) :
  rmap f l = Ok ys -> forall x, x ∈ l -> is_ok (f x) = true.
Proof.
  revert ys. induction l as [|a l IH]; intros ys E x Hx; [inversion Hx|].
  cbn in E. destruct (f a) eqn:Ea; [|discriminate]. cbn in E.
  destruct (rmap f l) eqn:El; [|discriminate].
  apply elem_of_cons in Hx as [->|Hx]; [now rewrite Ea|].
  eapply IH; eauto.
Qed.

Lemma rmap_raise {A B} (f : A -> result B) (l : list A) (x : A) :
  x ∈ l -> is_ok (f x) = false -> exists e, rmap f l = Raise e.
Proof.
  induction l as [|a l IH]; intros Hx Hf; [inversion Hx|].
  cbn. destruct (f a) eqn:Ea; [|cbn; eauto]. cbn.
  apply elem_of_cons in Hx as [->|Hx]; [rewrite Ea in Hf; discriminate|].
  destruct (IH Hx Hf) as [e ->]. cbn. eauto.
Qed.

(** The call unfolded, once the listing and the epochs are known. *)
Lemma delete_old_ckpts_unfold save_path model_name num_save fs checkpoints :
  list_checkpoints save_path model_name fs = (Ok checkpoints, fs) ->
  delete_old_ckpts save_path model_name num_save fs
  = match rmap checkpoint_epoch checkpoints with
    | Ok saved_epochs =>
        (remove_each id (doomed saved_epochs num_save) checkpoints ;;;
         remove_each companion (doomed saved_epochs num_save) checkpoints)%st fs
    | Raise e => (Raise e, fs)
    end.
Proof.
  intros E. unfold delete_old_ckpts. unfold bind at 1. rewrite E.
  unfold bind at 1, lift. destruct (rmap checkpoint_epoch checkpoints); reflexivity.
Qed.

Lemma list_checkpoints_state save_path model_name fs r fs' :
  list_checkpoints save_path model_name fs = (r, fs') -> fs' = fs.
Proof.
  unfold list_checkpoints, bind, os.listdir, ret.
  destruct (dir_entries fs !! save_path); intros E; now inversion E.
Qed.

(** C9. If the epoch of one of the listed checkpoints cannot be read,
    [delete_old_ckpts] raises and the file system is as it was: nothing
    has been removed. *)
Theorem delete_old_ckpts_parse_error save_path model_name num_save fs
    checkpoints c :
  fst (list_checkpoints save_path model_name fs) = Ok checkpoints ->
  c ∈ checkpoints ->
  is_ok (checkpoint_epoch c) = false ->
  exists e, delete_old_ckpts save_path model_name num_save fs = (Raise e, fs).
Proof.
  intros Hl Hc Hbad.
  destruct (list_checkpoints save_path model_name fs) as [r fs'] eqn:E.
  pose proof (list_checkpoints_state _ _ _ _ _ E) as ->. cbn in Hl. subst r.
  rewrite (delete_old_ckpts_unfold _ _ _ _ _ E).
  destruct (rmap_raise checkpoint_epoch checkpoints c Hc Hbad) as [e ->].
  eauto.
Qed.

Lemma delete_old_ckpts_parse_error_witness :
  exists e, delete_old_ckpts "runs" "" 3 fs_unreadable = (Raise e, fs_unreadable).
Proof.
  apply (delete_old_ckpts_parse_error "runs" "" 3 fs_unreadable
           (map (os.path_join "runs")
                (ckpt_names ["1"; "2"; "3"; "4"] ++ ["checkpoint-final.pt"]))
           "runs/checkpoint-final.pt").
  - reflexivity.
  - vm_compute. do 4 right. left.
  - reflexivity.
Defined.

Lemma remove_each_app target cond (l1 l2 : list string) (fs : FileSystem) :
  remove_each target cond (l1 ++ l2) fs
  = (remove_each target cond l1 ;;; remove_each target cond l2)%st fs.
Proof.
  revert fs. induction l1 as [|c l1 IH]; intros fs; [reflexivity|].
  cbn [app remove_each]. unfold bind, lift.
  destruct (cond c) as [[|]|e]; [| |reflexivity].
  - destruct (os.remove (target c) fs) as [[[]|e] fs1]; [|reflexivity].
    rewrite IH. reflexivity.
  - unfold ret. rewrite IH. reflexivity.
Qed.

Lemma listed save_path model_name fs checkpoints :
  fst (list_checkpoints save_path model_name fs) = Ok checkpoints ->
  list_checkpoints save_path model_name fs = (Ok checkpoints, fs).
Proof.
  destruct (list_checkpoints save_path model_name fs) as [r fs'] eqn:E.
  pose proof (list_checkpoints_state _ _ _ _ _ E) as ->. cbn. now intros ->.
Qed.

(** C1, as the code has it. When a checkpoint of the delete set has no
    optimizer file, removing that file raises and [delete_old_ckpts] raises
    with it. All checkpoints of the delete set have been removed by then,
    since the checkpoints are removed before the first optimizer file. *)
Theorem delete_old_ckpts_missing_companion save_path model_name num_save fs
    checkpoints saved_epochs c :
  fst (list_checkpoints save_path model_name fs) = Ok checkpoints ->
  rmap checkpoint_epoch checkpoints = Ok saved_epochs ->
  NoDup (victims saved_epochs num_save checkpoints) ->
  (forall v, v ∈ victims saved_epochs num_save checkpoints ->
             v ∈ files fs /\ v ∉ locked fs) ->
  c ∈ victims saved_epochs num_save checkpoints ->
  companion c ∉ files fs ->
  exists e,
    fst (delete_old_ckpts save_path model_name num_save fs) = Raise e
    /\ forall v, v ∈ victims saved_epochs num_save checkpoints ->
                 v ∉ files (snd (delete_old_ckpts save_path model_name num_save fs)).
Proof.
  intros Hl He Hnd Hin Hc Hmiss.
  rewrite (delete_old_ckpts_unfold _ _ _ _ _ (listed _ _ _ _ Hl)), He.
  pose proof (rmap_ok_all _ _ _ He) as Hparse.
  unfold bind.
  rewrite (remove_each_ok id) by (rewrite ?map_id; assumption).
  rewrite map_id.
  set (fs1 := without fs (victims saved_epochs num_save checkpoints)).
  assert (Hmiss1 : companion c ∉ files fs1) by (cbn; set_solver).
  destruct (remove_each_missing companion saved_epochs num_save checkpoints
              fs1 c Hparse Hc Hmiss1) as [e E].
  exists e. split; [exact E|].
  intros v Hv.
  destruct (remove_each_shrinks companion (doomed saved_epochs num_save)
              checkpoints fs1) as (Hsub & _ & _).
  intros Hv'. apply Hsub in Hv'. cbn in Hv'. set_solver.
Qed.

Lemma delete_old_ckpts_missing_companion_witness :
  exists e,
    fst (delete_old_ckpts "runs" "" 3 fs_no_opt) = Raise e
    /\ forall v, v ∈ victims [1; 2; 3; 4] 3
                       (map (os.path_join "runs") (ckpt_names ["1"; "2"; "3"; "4"])) ->
                 v ∉ files (snd (delete_old_ckpts "runs" "" 3 fs_no_opt)).
Proof.
  apply (delete_old_ckpts_missing_companion "runs" "" 3 fs_no_opt
           (map (os.path_join "runs") (ckpt_names ["1"; "2"; "3"; "4"]))
           [1; 2; 3; 4] "runs/checkpoint-epoch1.pt").
  - reflexivity.
  - reflexivity.
  - vm_compute. apply NoDup_singleton.
  - intros v Hv. vm_compute in Hv. apply list_elem_of_singleton in Hv as ->.
    split; [vm_compute; reflexivity | vm_compute; intros H; inversion H].
  - vm_compute. left.
  - vm_compute. intros H; inversion H.
Defined.

(** C1 as the specification states it fails: the optimizer file of the
    epoch-1 checkpoint is missing, the checkpoint is removed, and the call
    raises. *)
Lemma delete_old_ckpts_missing_companion_raises :
  is_victim [1; 2; 3; 4] 3 "runs/checkpoint-epoch1.pt" = true
  /\ (companion "runs/checkpoint-epoch1.pt" ∉ files fs_no_opt)
  /\ fst (delete_old_ckpts "runs" "" 3 fs_no_opt)
     = Raise (FileNotFoundError "runs/opt-checkpoint_epoch1.tar")
  /\ ("runs/checkpoint-epoch1.pt"
        ∉ files (snd (delete_old_ckpts "runs" "" 3 fs_no_opt))).
Proof.
  split; [reflexivity|]. split; [vm_compute; intros H; inversion H|].
  split; [reflexivity|]. vm_compute; intros H; inversion H.
Qed.

(** C4, as the code has it. The first checkpoint of the delete set that
    cannot be removed ends the call with its exception: the checkpoints of
    the delete set listed before it are gone, and nothing else has been
    removed, neither a later checkpoint nor an optimizer file. *)
Theorem delete_old_ckpts_checkpoint_failure save_path model_name num_save fs
    pre c post saved_epochs :
  fst (list_checkpoints save_path model_name fs) = Ok (pre ++ c :: post) ->
  rmap checkpoint_epoch (pre ++ c :: post) = Ok saved_epochs ->
  NoDup (victims saved_epochs num_save pre) ->
  (forall v, v ∈ victims saved_epochs num_save pre ->
             v ∈ files fs /\ v ∉ locked fs) ->
  is_victim saved_epochs num_save c = true ->
  c ∉ files fs \/ c ∈ locked fs ->
  exists e,
    delete_old_ckpts save_path model_name num_save fs
    = (Raise e, without fs (victims saved_epochs num_save pre)).
Proof.
  intros Hl He Hnd Hin Hc Hbad.
  rewrite (delete_old_ckpts_unfold _ _ _ _ _ (listed _ _ _ _ Hl)), He.
  pose proof (rmap_ok_all _ _ _ He) as Hparse.
  unfold bind at 1. rewrite remove_each_app. unfold bind at 1.
  rewrite (remove_each_ok id); rewrite ?map_id; try assumption.
  2:{ intros x Hx. apply Hparse. apply elem_of_app. now left. }
  set (fs1 := without fs (victims saved_epochs num_save pre)).
  cbn [remove_each]. unfold bind at 1, lift.
  rewrite doomed_is_victim
    by (apply Hparse; apply elem_of_app; right; left).
  rewrite Hc. unfold bind at 1.
  destruct (remove_refused (id c) fs1) as [e ->]; [|eauto].
  unfold id. destruct Hbad as [Hgone|Hlocked]; [left|right; exact Hlocked].
  cbn. set_solver.
Qed.

Lemma delete_old_ckpts_checkpoint_failure_witness :
  exists e,
    delete_old_ckpts "runs" "" 2 fs_vanished
    = (Raise e,
       without fs_vanished
         (victims [1; 2; 3; 4; 5] 2 ["runs/checkpoint-epoch1.pt"])).
Proof.
  apply (delete_old_ckpts_checkpoint_failure "runs" "" 2 fs_vanished
           ["runs/checkpoint-epoch1.pt"] "runs/checkpoint-epoch2.pt"
           (map (os.path_join "runs") (ckpt_names ["3"; "4"; "5"]))
           [1; 2; 3; 4; 5]).
  - reflexivity.
  - reflexivity.
  - vm_compute. apply NoDup_singleton.
  - intros v Hv. vm_compute in Hv. apply list_elem_of_singleton in Hv as ->.
    split; [vm_compute; reflexivity | vm_compute; intros H; inversion H].
  - reflexivity.
  - left. vm_compute. intros H; inversion H.
Defined.

(** C4 as the specification states it fails: the epoch-1 checkpoint cannot
    be removed, the call raises, and the epoch-2 checkpoint, which is in the
    delete set as well, has not been dealt with. *)
Lemma delete_old_ckpts_failure_aborts :
  is_victim [1; 2; 3; 4; 5] 3 "runs/checkpoint-epoch2.pt" = true
  /\ ("runs/checkpoint-epoch2.pt" ∉ locked fs_refused)
  /\ fst (delete_old_ckpts "runs" "" 3 fs_refused)
     = Raise (PermissionError "runs/checkpoint-epoch1.pt")
  /\ ("runs/checkpoint-epoch2.pt"
        ∈ files (snd (delete_old_ckpts "runs" "" 3 fs_refused))).
Proof.
  split; [reflexivity|]. split; [vm_compute; intros H; inversion H|].
  split; [reflexivity|]. vm_compute. reflexivity.
Qed.

(** *** The optimizer file of a checkpoint is not a checkpoint *)

Lemma prefix_cons (a b : ascii) (s1 s2 : string) :
  String.prefix (String a s1) (String b s2)
  = if Ascii.eqb a b then String.prefix s1 s2 else false.
Proof.
  cbn. destruct (ascii_dec a b) as [->|Hne].
  - now rewrite Ascii.eqb_refl.
  - apply Ascii.eqb_neq in Hne. now rewrite Hne.
Qed.

(** Replacing [.pt] keeps the first character of a string, and the rest is
    replaced on its own unless that character is a dot. *)
Lemma replace_pt_head (s : string) :
  match s with
  | EmptyString => Str.replace_from ".pt" ".tar" 0 s = EmptyString
  | String c r =>
      exists r', Str.replace_from ".pt" ".tar" 0 s = String c r'
                 /\ (Ascii.eqb "." c = false ->
                     r' = Str.replace_from ".pt" ".tar" 0 r)
  end.
Proof.
  destruct s as [|c r]; [reflexivity|].
  cbn [Str.replace_from]. rewrite prefix_cons.
  destruct (Ascii.eqb "." c) eqn:Ec.
  - apply Ascii.eqb_eq in Ec as <-.
    destruct (String.prefix "pt" r).
    + eexists. split; [reflexivity|discriminate].
    + eexists. split; [reflexivity|discriminate].
  - eexists. split; [reflexivity|reflexivity].
Qed.

Lemma replace_pt_free (s : string) :
  forall skip,
    Str.contains ".pt" (Str.replace_from ".pt" ".tar" skip s) = false.
Proof.
  induction s as [|c s IH]; intros skip; [reflexivity|].
  cbn [Str.replace_from]. destruct skip as [|k]; [|apply IH].
  destruct (String.prefix ".pt" (String c s)) eqn:Ep.
  - change (".tar" +:+ ?r) with (String "." (String "t" (String "a" (String "r" r)))).
    cbn [Str.contains]. rewrite !prefix_cons. cbn [Ascii.eqb Bool.eqb orb].
    cbn. apply IH.
  - cbn [Str.contains]. rewrite IH, orb_false_r.
    rewrite prefix_cons in Ep |- *.
    destruct (Ascii.eqb "." c); [|reflexivity].
    pose proof (replace_pt_head s) as Hs.
    destruct s as [|d r]; [now rewrite Hs|].
    destruct Hs as (r' & -> & Hr'). rewrite prefix_cons in Ep |- *.
    destruct (Ascii.eqb "p" d) eqn:Ed; [|reflexivity].
    apply Ascii.eqb_eq in Ed as <-. rewrite (Hr' eq_refl).
    pose proof (replace_pt_head r) as Hr.
    destruct r as [|e t]; [now rewrite Hr|].
    destruct Hr as (t' & -> & _). rewrite prefix_cons in Ep |- *.
    destruct (Ascii.eqb "t" e); [|reflexivity].
    destruct t; discriminate.
Qed.

Lemma companion_no_pt (c : string) : Str.contains ".pt" (companion c) = false.
Proof. unfold companion, Str.replace. apply replace_pt_free. Qed.

Lemma contains_app_r (sub a b : string) :
  Str.contains sub b = true -> Str.contains sub (a +:+ b) = true.
Proof.
  intros H. induction a as [|x a IH]; push_append; [exact H|].
  cbn [Str.contains]. rewrite IH. apply orb_true_r.
Qed.

Lemma path_join_contains (sub a p : string) :
  Str.contains sub p = true -> Str.contains sub (os.path_join a p) = true.
Proof.
  intros H. unfold os.path_join.
  destruct (String.prefix "/" p); [exact H|].
  destruct a as [|x a]; [exact H|].
  destruct (os.ends_with_slash (String x a)).
  - now apply contains_app_r.
  - apply contains_app_r. now apply (contains_app_r sub "/" p).
Qed.

(** Every listed checkpoint has [.pt] in its path. *)
Lemma list_checkpoints_pt save_path model_name fs checkpoints c :
  fst (list_checkpoints save_path model_name fs) = Ok checkpoints ->
  c ∈ checkpoints -> Str.contains ".pt" c = true.
Proof.
  unfold list_checkpoints, bind, os.listdir, ret.
  destruct (dir_entries fs !! save_path) as [names|]; [|discriminate].
  cbn. intros E Hc. inversion E; subst checkpoints; clear E.
  apply list_elem_of_fmap in Hc as (i & -> & Hi).
  apply list_elem_of_filter in Hi as [Hi _].
  apply path_join_contains.
  unfold is_checkpoint_name in Hi.
  apply andb_prop in Hi as [Hi _]. apply andb_prop in Hi as [Hi _]. exact Hi.
Qed.

Lemma companion_not_listed save_path model_name fs checkpoints c c' :
  fst (list_checkpoints save_path model_name fs) = Ok checkpoints ->
  c ∈ checkpoints -> companion c' <> c.
Proof.
  intros Hl Hc E.
  pose proof (list_checkpoints_pt _ _ _ _ _ Hl Hc) as H.
  rewrite <- E, companion_no_pt in H. discriminate.
Qed.

(** *** The delete set *)

Lemma remove_dups_NoDup (l : list Z) : NoDup l -> remove_dups l = l.
Proof.
  induction 1 as [|x l Hx Hl IH]; [reflexivity|].
  cbn [remove_dups]. destruct (decide_rel elem_of x l); [contradiction|].
  now rewrite IH.
Qed.

(** A positive [num_save] drops the last [num_save] elements. *)
Lemma slice_minus {A} (l : list A) (k : Z) :
  0 < k -> Py.slice_to l (- k) = firstn (length l - Z.to_nat k)%nat l.
Proof.
  intros Hk. unfold Py.slice_to.
  replace (- k <? 0) with true by (symmetry; apply Z.ltb_lt; lia).
  f_equal. lia.
Qed.

(** Unless the array is one of [float64], its elements are the integers
    of the list. *)
Lemma cast_exact (d : np.dtype) (x : Z) : d <> np.float64 -> np.cast d x = x.
Proof. destruct d; [reflexivity|reflexivity|congruence|reflexivity]. Qed.

Lemma asarray_exact (l : list Z) :
  np.result_dtype l <> np.float64 -> np.asarray l = l.
Proof.
  intros Hd. unfold np.asarray.
  rewrite (map_ext _ id); [apply map_id|].
  intros x. now apply cast_exact.
Qed.

(** Without repeated epochs and without rounding, the slice of the code
    is the delete set of the specification. *)
Lemma slice_is_spec_delete_set (saved_epochs : list Z) (num_save : Z) :
  np.result_dtype saved_epochs <> np.float64 ->
  NoDup saved_epochs -> 0 < num_save ->
  Py.slice_to (np.sort (np.asarray saved_epochs)) (- num_save)
  = spec_delete_set saved_epochs num_save.
Proof.
  intros Hd Hnd Hk. rewrite asarray_exact by exact Hd.
  rewrite slice_minus by exact Hk.
  unfold spec_delete_set, np.unique. now rewrite remove_dups_NoDup.
Qed.

Lemma is_victim_mem saved_epochs num_save c e :
  checkpoint_epoch c = Ok e ->
  is_victim saved_epochs num_save c
  = Py.mem (np.cast (np.result_dtype saved_epochs) e)
           (Py.slice_to (np.sort (np.asarray saved_epochs)) (- num_save)).
Proof. intros E. unfold is_victim, doomed. now rewrite E. Qed.

Lemma mem_elem_of (e : Z) (l : list Z) : Py.mem e l = true <-> e ∈ l.
Proof.
  unfold Py.mem. rewrite existsb_exists. split.
  - intros (x & Hx & E). apply Z.eqb_eq in E as <-. now apply list_elem_of_In.
  - intros H. exists e. split; [now apply list_elem_of_In | apply Z.eqb_refl].
Qed.

Lemma not_mem_elem_of (e : Z) (l : list Z) : Py.mem e l = false <-> e ∉ l.
Proof.
  rewrite <- mem_elem_of. destruct (Py.mem e l); split; congruence.
Qed.

(** What a comprehension has removed is among its targets. *)
Lemma remove_each_targets target cond (l : list string) :
  forall fs p,
    p ∈ files fs ->
    p ∉ files (snd (remove_each target cond l fs)) ->
    p ∈ map target l.
Proof.
  induction l as [|c l IH]; intros fs p Hin Hout; [contradiction|].
  cbn [remove_each] in Hout. unfold bind at 1, lift in Hout.
  destruct (cond c) as [[|]|e]; cbn -[remove_each] in Hout.
  - unfold bind, os.remove in Hout.
    destruct (decide (target c ∈ files fs)); [|contradiction].
    destruct (decide (target c ∈ locked fs)); [contradiction|].
    destruct (decide (p = target c)) as [->|Hne]; [left|].
    right. apply (IH _ p) in Hout; [exact Hout|]. cbn. set_solver.
  - unfold bind, ret in Hout. right. now apply (IH fs p).
  - contradiction.
Qed.

(** C2, as the code has it. When every epoch can be read and the
    checkpoints to remove can be removed, a listed checkpoint is still
    there after the call exactly if its epoch, as an element of the array
    that numpy makes of the epochs, is not in
    [np.sort(saved_epochs)[:-num_save]]. When the optimizer files of the
    removed checkpoints can be removed as well, the call returns and has
    removed these checkpoints and their optimizer files, and nothing else.
    The slice is taken from the sorted array of all epochs, one entry per
    file. When numpy holds the epochs as they are (it rounds them to
    doubles only when epochs below 2^63 meet epochs from 2^63 to 2^64 - 1),
    no two files share an epoch and [num_save] is positive, the
    checkpoints removed are those whose epoch is among all but the
    [num_save] largest distinct epochs. *)
Theorem delete_old_ckpts_exact save_path model_name num_save fs
    checkpoints saved_epochs :
  fst (list_checkpoints save_path model_name fs) = Ok checkpoints ->
  rmap checkpoint_epoch checkpoints = Ok saved_epochs ->
  NoDup (victims saved_epochs num_save checkpoints) ->
  (forall p, p ∈ victims saved_epochs num_save checkpoints ->
             p ∈ files fs /\ p ∉ locked fs) ->
  (forall c e,
     c ∈ checkpoints -> checkpoint_epoch c = Ok e ->
     (c ∈ files (snd (delete_old_ckpts save_path model_name num_save fs))
      <-> c ∈ files fs
          /\ Py.mem (np.cast (np.result_dtype saved_epochs) e)
                    (Py.slice_to (np.sort (np.asarray saved_epochs)) (- num_save))
             = false))
  /\ (NoDup (map companion (victims saved_epochs num_save checkpoints)) ->
      (forall p, p ∈ map companion (victims saved_epochs num_save checkpoints) ->
                 p ∈ files fs /\ p ∉ locked fs) ->
      delete_old_ckpts save_path model_name num_save fs
      = (Ok tt,
         without fs (victims saved_epochs num_save checkpoints
                     ++ map companion (victims saved_epochs num_save checkpoints))))
  /\ (np.result_dtype saved_epochs <> np.float64 ->
      NoDup saved_epochs -> 0 < num_save ->
      forall c e,
        c ∈ checkpoints -> checkpoint_epoch c = Ok e ->
        (c ∈ files (snd (delete_old_ckpts save_path model_name num_save fs))
         <-> c ∈ files fs /\ e ∉ spec_delete_set saved_epochs num_save)).
Proof.
  intros Hl He Hnd Hin.
  set (dead := victims saved_epochs num_save checkpoints) in *.
  pose proof (rmap_ok_all _ _ _ He) as Hparse.
  assert (Hdead : forall c, c ∈ dead ->
                    c ∈ checkpoints /\ is_victim saved_epochs num_save c = true).
  { intros c. unfold dead, victims. rewrite list_elem_of_filter. tauto. }
  assert (Hcomp : forall c, c ∈ checkpoints -> c ∉ map companion checkpoints).
  { intros c Hc H. apply list_elem_of_fmap in H as (c' & E & _).
    symmetry in E. exact (companion_not_listed _ _ _ _ _ _ Hl Hc E). }
  assert (Hrun : delete_old_ckpts save_path model_name num_save fs
                 = remove_each companion (doomed saved_epochs num_save)
                     checkpoints (without fs dead)).
  { rewrite (delete_old_ckpts_unfold _ _ _ _ _ (listed _ _ _ _ Hl)), He.
    unfold bind.
    rewrite (remove_each_ok id); rewrite ?map_id; fold dead; try assumption.
    reflexivity. }
  assert (Hkept : forall c e,
            c ∈ checkpoints -> checkpoint_epoch c = Ok e ->
            (c ∈ files (snd (delete_old_ckpts save_path model_name num_save fs))
             <-> c ∈ files fs
                 /\ Py.mem (np.cast (np.result_dtype saved_epochs) e)
                           (Py.slice_to (np.sort (np.asarray saved_epochs))
                                        (- num_save))
                    = false)).
  2:{ split; [exact Hkept|]. split.
      2:{ intros Hd Hnd1 Hk c e Hc Ee. rewrite (Hkept c e Hc Ee).
          rewrite slice_is_spec_delete_set by assumption.
          rewrite cast_exact by exact Hd. now rewrite not_mem_elem_of. }
      intros Hnd2 Hin2. rewrite Hrun.
      rewrite remove_each_ok; fold dead; try assumption.
      + now rewrite without_app.
      + intros p Hp. destruct (Hin2 p Hp) as [Hf Hk].
        split; [|exact Hk]. cbn. apply elem_of_difference. split; [exact Hf|].
        intros Hp'. apply elem_of_list_to_set, Hdead in Hp' as [Hp' _].
        apply (Hcomp p Hp').
        apply list_elem_of_fmap in Hp as (c' & -> & Hc').
        apply list_elem_of_fmap. exists c'. split; [reflexivity|].
        now apply Hdead in Hc' as [Hc' _]. }
  - intros c e Hc Ee. rewrite Hrun.
    rewrite <- (is_victim_mem saved_epochs num_save c e Ee).
    destruct (remove_each_shrinks companion (doomed saved_epochs num_save)
                checkpoints (without fs dead)) as (Hsub & _ & _).
    split.
    + intros Hc'. apply Hsub in Hc'. cbn in Hc'.
      apply elem_of_difference in Hc' as [Hf Hnot]. split; [exact Hf|].
      destruct (is_victim saved_epochs num_save c) eqn:Ev; [|reflexivity].
      exfalso. apply Hnot. apply elem_of_list_to_set.
      unfold dead, victims. apply list_elem_of_filter. now split.
    + intros [Hf Hv].
      destruct (decide (c ∈ files (snd (remove_each companion
                  (doomed saved_epochs num_save) checkpoints (without fs dead)))))
        as [Hyes|Hno]; [exact Hyes|].
      exfalso. apply (Hcomp c Hc).
      apply (remove_each_targets companion (doomed saved_epochs num_save)
               checkpoints (without fs dead) c); [|exact Hno].
      cbn. apply elem_of_difference. split; [exact Hf|].
      intros H. apply elem_of_list_to_set, Hdead in H as [_ H]. congruence.
Qed.

(** Checkpoints at epochs 1 to 5 and [num_save = 3]: the files of epochs 1
    and 2 are removed, those of epochs 3, 4 and 5 remain. *)
Lemma delete_old_ckpts_exact_witness :
  fst (delete_old_ckpts "runs" "" 3 fs_five) = Ok tt
  /\ files (snd (delete_old_ckpts "runs" "" 3 fs_five))
     = in_runs (ckpt_names ["3"; "4"; "5"] ++ opt_names ["3"; "4"; "5"]).
Proof.
  destruct (delete_old_ckpts_exact "runs" "" 3 fs_five
              (map (os.path_join "runs") (ckpt_names ["1"; "2"; "3"; "4"; "5"]))
              [1; 2; 3; 4; 5]) as (_ & Hrun & _).
  - reflexivity.
  - reflexivity.
  - apply (bool_decide_unpack _). vm_compute. exact I.
  - apply Forall_forall. apply (bool_decide_unpack _). vm_compute. exact I.
  - rewrite Hrun.
    + split; [reflexivity | vm_compute; reflexivity].
    + apply (bool_decide_unpack _). vm_compute. exact I.
    + apply Forall_forall. apply (bool_decide_unpack _). vm_compute. exact I.
Defined.

(** C2 as the specification states it fails when two files share an
    epoch. With epochs 1, 2, 2, 3 and [num_save = 3] the distinct epochs
    are three, so nothing is to be deleted; the code removes the checkpoint
    of epoch 1 and its optimizer file. *)
Lemma delete_old_ckpts_duplicate_epochs :
  rmap checkpoint_epoch
    (map (os.path_join "runs") (ckpt_names ["1"; "2"; "02"; "3"]))
  = Ok [1; 2; 2; 3]
  /\ spec_delete_set [1; 2; 2; 3] 3 = []
  /\ ("runs/checkpoint-epoch1.pt" ∈ files fs_dup)
  /\ fst (delete_old_ckpts "runs" "" 3 fs_dup) = Ok tt
  /\ ("runs/checkpoint-epoch1.pt"
        ∉ files (snd (delete_old_ckpts "runs" "" 3 fs_dup)))
  /\ files (snd (delete_old_ckpts "runs" "" 3 fs_dup))
     = in_runs (ckpt_names ["2"; "02"; "3"] ++ opt_names ["2"; "02"; "3"]).
Proof.
  split; [reflexivity|]. split; [reflexivity|].
  split; [vm_compute; reflexivity|]. split; [reflexivity|].
  split; [vm_compute; intros H; inversion H|].
  vm_compute. reflexivity.
Qed.

(** Epochs that numpy rounds. The epochs 2^63, 2^63 + 1 and 1 make an
    array of doubles, in which 2^63 + 1 has become 2^63; with
    [num_save = 1] the slice holds 1 and 2^63, and all three checkpoints
    pass the test, the one of the largest epoch as well. *)
Example doomed_rounded_epochs :
  let saved_epochs := [2 ^ 63; 2 ^ 63 + 1; 1] in
  rmap checkpoint_epoch
    ["runs/checkpoint-epoch9223372036854775808.pt";
     "runs/checkpoint-epoch9223372036854775809.pt";
     "runs/checkpoint-epoch1.pt"]
  = Ok saved_epochs
  /\ np.result_dtype saved_epochs = np.float64
  /\ np.sort (np.asarray saved_epochs) = [1; 2 ^ 63; 2 ^ 63]
  /\ map (doomed saved_epochs 1)
       ["runs/checkpoint-epoch9223372036854775808.pt";
        "runs/checkpoint-epoch9223372036854775809.pt";
        "runs/checkpoint-epoch1.pt"]
     = [Ok true; Ok true; Ok true].
Proof. vm_compute. repeat split. Qed.

(** ** The small generator is lawful *)

Lemma pick_lt (g : Z) (n : nat) : (0 < n)%nat -> (Lcg.pick g n < n)%nat.
Proof.
  intros Hn. unfold Lcg.pick.
  pose proof (Z.mod_pos_bound g (Z.of_nat n) ltac:(lia)). lia.
Qed.

Lemma draw_without_spec (n : nat) :
  forall pool g,
    (n <= length pool)%nat ->
    exists l rest g',
      Lcg.draw_without n pool g = (l, g')
      /\ length l = n /\ Permutation (l ++ rest) pool.
Proof.
  induction n as [|n IH]; intros pool g Hn.
  - exists [], pool, g. cbn. auto.
  - cbn [Lcg.draw_without].
    destruct (lookup_lt_is_Some_2 pool (Lcg.pick (Lcg.next g) (length pool)))
      as [x Hx]; [apply pick_lt; lia|].
    rewrite Hx.
    destruct (IH (delete (Lcg.pick (Lcg.next g) (length pool)) pool) (Lcg.next g))
      as (l & rest & g' & E & Hlen & Hperm).
    { rewrite length_delete by eauto. lia. }
    rewrite E. exists (x :: l), rest, g'. split; [reflexivity|].
    split; [cbn; now rewrite Hlen|].
    cbn. rewrite Hperm. symmetry. now apply delete_Permutation.
Qed.

Lemma draw_with_spec (n : nat) (pool : list nat) :
  pool <> [] ->
  forall g,
    exists l g',
      Lcg.draw_with n pool g = (l, g')
      /\ length l = n /\ Forall (fun i => In i pool) l.
Proof.
  intros Hpool. induction n as [|n IH]; intros g.
  - exists [], g. cbn. auto.
  - cbn [Lcg.draw_with].
    destruct (lookup_lt_is_Some_2 pool (Lcg.pick (Lcg.next g) (length pool)))
      as [x Hx]; [apply pick_lt; destruct pool; [congruence|cbn; lia]|].
    rewrite Hx. destruct (IH (Lcg.next g)) as (l & g' & E & Hlen & Hall).
    rewrite E. exists (x :: l), g'. split; [reflexivity|].
    split; [cbn; now rewrite Hlen|].
    constructor; [|exact Hall].
    apply list_elem_of_In. eapply list_elem_of_lookup_2. exact Hx.
Qed.

Lemma lcg_lawful : LawfulRandom lcg.
Proof.
  split.
  - intros a size g [H0 Hlen]. cbn. unfold Lcg.choice.
    replace (size <? 0) with false by (symmetry; apply Z.ltb_ge; lia).
    replace (Z.of_nat (length a) <? size) with false
      by (symmetry; apply Z.ltb_ge; lia).
    destruct (draw_without_spec (Z.to_nat size) a g ltac:(lia))
      as (l & rest & g' & E & Hl & Hperm).
    rewrite E. eauto 10.
  - intros a size g H0 Ha. cbn. unfold Lcg.choice.
    replace (size <? 0) with false by (symmetry; apply Z.ltb_ge; lia).
    replace (length a =? 0)%nat with false
      by (symmetry; apply Nat.eqb_neq; destruct a; [congruence|cbn; lia]).
    rewrite andb_false_r.
    destruct (draw_with_spec (Z.to_nat size) a Ha g) as (l & g' & E & Hl & Hall).
    rewrite E. eauto 10.
  - intros a g. cbn. unfold Lcg.permutation.
    destruct (draw_without_spec (length a) a g (le_n _))
      as (l & rest & g' & E & Hl & Hperm).
    rewrite E. exists l, g'. split; [reflexivity|].
    assert (rest = []) as ->.
    { apply Permutation_length in Hperm. rewrite length_app in Hperm.
      destruct rest; [reflexivity|cbn in Hperm; lia]. }
    rewrite app_nil_r in Hperm. now symmetry.
Qed.

(** ** Labels, counts and positions *)

Lemma elem_of_unique (y : list Z) (v : Z) : v ∈ np.unique y <-> v ∈ y.
Proof.
  unfold np.unique, np.sort. rewrite merge_sort_Permutation.
  apply elem_of_remove_dups.
Qed.

Lemma NoDup_unique (y : list Z) : NoDup (np.unique y).
Proof.
  unfold np.unique, np.sort. rewrite merge_sort_Permutation.
  apply NoDup_remove_dups.
Qed.

Lemma length_unique (y : list Z) :
  Z.of_nat (length (np.unique y)) = number_of_classes y.
Proof.
  unfold number_of_classes, classes, np.unique, np.sort.
  rewrite merge_sort_Permutation. f_equal.
  rewrite <- (size_list_to_set (C := gset Z) (remove_dups y))
    by apply NoDup_remove_dups.
  f_equal. apply set_eq. intros v.
  rewrite !elem_of_list_to_set. apply elem_of_remove_dups.
Qed.

Lemma unique_nonempty (y : list Z) : y <> [] -> np.unique y <> [].
Proof.
  intros Hy E. destruct y as [|v y]; [congruence|].
  assert (H : v ∈ np.unique (v :: y)) by (apply elem_of_unique; left).
  rewrite E in H. inversion H.
Qed.

Lemma elem_of_where_eq (y : list Z) (v : Z) (i : nat) :
  i ∈ np.where_eq y v <-> y !! i = Some v.
Proof.
  unfold np.where_eq. rewrite list_elem_of_filter, elem_of_seq.
  split; [tauto|]. intros H. split; [exact H|].
  apply lookup_lt_Some in H. lia.
Qed.

Lemma NoDup_where_eq (y : list Z) (v : Z) : NoDup (np.where_eq y v).
Proof. unfold np.where_eq. apply NoDup_filter, NoDup_seq. Qed.

Lemma filter_ext_in {A} (P Q : A -> Prop) `{!forall x, Decision (P x)}
    `{!forall x, Decision (Q x)} (l : list A) :
  (forall x, x ∈ l -> P x <-> Q x) -> filter P l = filter Q l.
Proof.
  induction l as [|a l IH]; intros Hext; [reflexivity|].
  rewrite !filter_cons.
  assert (Ha : P a <-> Q a) by (apply Hext; left).
  rewrite IH by (intros x Hx; apply Hext; now right).
  destruct (decide (P a)), (decide (Q a)); tauto.
Qed.

(** There are as many positions of [v] as occurrences of [v]. *)
Lemma length_where_eq (y : list Z) (v : Z) :
  Z.of_nat (length (np.where_eq y v)) = np.occurrences y v.
Proof.
  unfold np.occurrences, np.where_eq. f_equal.
  induction y as [|a y IH] using rev_ind; [reflexivity|].
  rewrite length_app, Nat.add_1_r, seq_S, !filter_app, !length_app, <- IH.
  cbn [Nat.add]. f_equal.
  - f_equal. apply filter_ext_in. intros i Hi. apply elem_of_seq in Hi.
    rewrite lookup_app_l by lia. reflexivity.
  - rewrite !filter_cons, !filter_nil.
    rewrite lookup_app_r by lia. rewrite Nat.sub_diag. cbn [lookup list_lookup].
    destruct (decide (Some a = Some v)) as [E|E], (decide (a = v)) as [E'|E'];
      try reflexivity; congruence.
Qed.

Lemma occurrences_pos (y : list Z) (v : Z) : v ∈ y -> 1 <= np.occurrences y v.
Proof.
  intros Hv. unfold np.occurrences.
  assert (H : v ∈ filter (fun x => x = v) y) by (apply list_elem_of_filter; auto).
  destruct (filter (fun x => x = v) y); [inversion H|cbn; lia].
Qed.

Lemma min_spec (a : list Z) :
  a <> [] ->
  exists m, np.min a = Ok m /\ m ∈ a /\ forall x, x ∈ a -> m <= x.
Proof.
  destruct a as [|x a]; [congruence|]. intros _. cbn [np.min].
  exists (foldr Z.min x a). split; [reflexivity|].
  induction a as [|b a (Hin & Hle)]; cbn [foldr].
  - split; [left|]. intros z Hz. apply list_elem_of_singleton in Hz. lia.
  - split.
    + destruct (Z.min_spec b (foldr Z.min x a)) as [[_ ->]|[_ ->]].
      * right. left.
      * apply elem_of_cons in Hin as [E|Hin]; [rewrite E; left|].
        right. now right.
    + intros z Hz. apply elem_of_cons in Hz as [->|Hz].
      * etransitivity; [apply Z.le_min_r|]. apply Hle. left.
      * apply elem_of_cons in Hz as [->|Hz]; [apply Z.le_min_l|].
        etransitivity; [apply Z.le_min_r|]. apply Hle. now right.
Qed.

(** The least number of occurrences among the labels of [y]. *)
Lemma min_counts (y : list Z) :
  y <> [] ->
  exists m,
    np.min (np.unique_counts y) = Ok m
    /\ (exists v, v ∈ y /\ np.occurrences y v = m)
    /\ (forall v, v ∈ y -> m <= np.occurrences y v).
Proof.
  intros Hy.
  destruct (min_spec (np.unique_counts y)) as (m & E & Hin & Hle).
  { unfold np.unique_counts. intros H. apply fmap_nil_inv in H.
    now apply unique_nonempty in H. }
  exists m. split; [exact E|]. unfold np.unique_counts in *. split.
  - apply list_elem_of_fmap in Hin as (v & -> & Hv).
    exists v. split; [now apply elem_of_unique|reflexivity].
  - intros v Hv. apply Hle. apply list_elem_of_fmap. exists v.
    split; [reflexivity|now apply elem_of_unique].
Qed.

(** ** The sampling loop *)

Section Sampling.

Context {R : RandomState} {L : LawfulRandom R}.

(** One turn of the loop returns, and what it returns is a part for its
    label. *)
Lemma draw_label_spec (y : list Z) (minority label : Z) (g : rng) :
  0 <= minority -> label ∈ y ->
  exists part g',
    draw_label y minority label g = (Ok part, g')
    /\ part_of y minority label part.
Proof.
  intros Hm Hlabel. unfold draw_label. rewrite Z.geb_leb.
  destruct (Z.leb_spec minority (Z.of_nat (length (np.where_eq y label))))
    as [Hle|Hlt].
  - destruct (choice_without_replacement (np.where_eq y label) minority g)
      as (l & rest & g' & E & Hlen & Hperm); [lia|].
    exists l, g'. split; [exact E|]. split; [exact Hlen|]. split.
    + apply Forall_forall. intros i Hi. apply elem_of_where_eq.
      rewrite <- Hperm. apply elem_of_app. now left.
    + intros _. pose proof (NoDup_where_eq y label) as Hnd.
      rewrite <- Hperm in Hnd. now apply NoDup_app in Hnd as (Hnd & _ & _).
  - destruct (choice_with_replacement (np.where_eq y label) minority g)
      as (l & g' & E & Hlen & Hall); [lia| |].
    { pose proof (occurrences_pos y label Hlabel) as Hpos.
      rewrite <- length_where_eq in Hpos.
      destruct (np.where_eq y label); [cbn in Hpos; lia|discriminate]. }
    exists l, g'. split; [exact E|]. split; [exact Hlen|]. split; [|lia].
    eapply Forall_impl; [exact Hall|].
    intros i Hi. cbn in Hi. apply list_elem_of_In in Hi.
    now apply elem_of_where_eq.
Qed.

(** The loop returns what it was given followed by one part for each
    label, in the order of the labels. *)
Lemma draw_labels_spec (y : list Z) (minority : Z) (labels : list Z) :
  0 <= minority ->
  (forall label, label ∈ labels -> label ∈ y) ->
  forall idxs g,
    exists parts g',
      draw_labels y minority labels idxs g = (Ok (idxs ++ concat parts), g')
      /\ Forall2 (part_of y minority) labels parts.
Proof.
  intros Hm. induction labels as [|label labels IH]; intros Hin idxs g.
  - exists [], g. cbn. rewrite app_nil_r. split; [reflexivity|constructor].
  - cbn [draw_labels]. unfold bind at 1.
    destruct (draw_label_spec y minority label g Hm) as (part & g1 & E & Hpart);
      [apply Hin; left|].
    rewrite E.
    destruct (IH (fun l Hl => Hin l (list_elem_of_further _ _ _ Hl))
                 (idxs ++ part) g1) as (parts & g' & E' & Hparts).
    rewrite E'. exists (part :: parts), g'. split.
    + cbn [concat]. now rewrite app_assoc.
    + now constructor.
Qed.

End Sampling.

(** *** What the parts add up to *)

Lemma label_count_app (y : list Z) (v : Z) (a b : list nat) :
  label_count y v (a ++ b) = (label_count y v a + label_count y v b)%nat.
Proof. unfold label_count. now rewrite filter_app, length_app. Qed.

Lemma label_count_part (y : list Z) (minority label v : Z) (part : list nat) :
  part_of y minority label part ->
  label_count y v part = if decide (v = label) then Z.to_nat minority else 0%nat.
Proof.
  intros (Hlen & Hall & _). unfold label_count. rewrite <- Hlen. clear Hlen.
  induction Hall as [|i part Hi Hall IH]; [now destruct (decide (v = label))|].
  rewrite filter_cons, Hi.
  destruct (decide (v = label)) as [->|Hne].
  - rewrite decide_True by reflexivity. cbn. now rewrite IH.
  - rewrite decide_False by congruence. exact IH.
Qed.

Lemma parts_length (y : list Z) (minority : Z) (labels : list Z)
    (parts : list (list nat)) :
  Forall2 (part_of y minority) labels parts ->
  length (concat parts) = (length labels * Z.to_nat minority)%nat.
Proof.
  induction 1 as [|label part labels parts (Hlen & _) _ IH]; [reflexivity|].
  cbn. rewrite length_app, IH, Hlen. reflexivity.
Qed.

(** Every label gets exactly [minority] positions. *)
Lemma parts_count (y : list Z) (minority : Z) (labels : list Z)
    (parts : list (list nat)) (v : Z) :
  Forall2 (part_of y minority) labels parts ->
  NoDup labels ->
  label_count y v (concat parts)
  = if decide (v ∈ labels) then Z.to_nat minority else 0%nat.
Proof.
  induction 1 as [|label part labels parts Hpart _ IH]; intros Hnd.
  - cbn. rewrite decide_False; [reflexivity|]. intros H; inversion H.
  - apply NoDup_cons in Hnd as [Hfresh Hnd]. cbn [concat].
    rewrite label_count_app, (label_count_part _ _ _ _ _ Hpart), (IH Hnd).
    destruct (decide (v = label)) as [->|Hne].
    + rewrite decide_False by exact Hfresh.
      rewrite decide_True by left. lia.
    + destruct (decide (v ∈ labels)) as [Hv|Hv].
      * rewrite decide_True by now right. reflexivity.
      * rewrite decide_False; [reflexivity|].
        intros H. apply elem_of_cons in H as [?|?]; contradiction.
Qed.

Lemma parts_valid (y : list Z) (minority : Z) (labels : list Z)
    (parts : list (list nat)) :
  Forall2 (part_of y minority) labels parts ->
  Forall (fun i => exists label, label ∈ labels /\ y !! i = Some label)
         (concat parts).
Proof.
  induction 1 as [|label part labels parts (_ & Hall & _) _ IH]; [constructor|].
  cbn [concat]. apply Forall_app. split.
  - eapply Forall_impl; [exact Hall|]. intros i Hi. exists label.
    split; [left|exact Hi].
  - eapply Forall_impl; [exact IH|]. intros i (l & Hl & Hi). exists l.
    split; [now right|exact Hi].
Qed.

(** When every label is drawn without replacement no position is drawn
    twice. *)
Lemma parts_NoDup (y : list Z) (minority : Z) (labels : list Z)
    (parts : list (list nat)) :
  Forall2 (part_of y minority) labels parts ->
  NoDup labels ->
  (forall label, label ∈ labels ->
                 minority <= Z.of_nat (length (np.where_eq y label))) ->
  NoDup (concat parts).
Proof.
  induction 1 as [|label part labels parts Hpart Hparts IH]; intros Hnd Hbig.
  - constructor.
  - apply NoDup_cons in Hnd as [Hfresh Hnd]. cbn [concat].
    destruct Hpart as (_ & Hall & Hpart). apply NoDup_app. split; [|split].
    + apply Hpart, Hbig. left.
    + intros i Hi Hi'.
      pose proof (parts_valid _ _ _ _ Hparts) as Hvalid.
      rewrite Forall_forall in Hall, Hvalid.
      destruct (Hvalid i Hi') as (l & Hl & E).
      rewrite (Hall i Hi) in E. inversion E; subst l. contradiction.
    + apply IH; [exact Hnd|]. intros l Hl. apply Hbig. now right.
Qed.

(** ** The quota *)

Lemma number_of_classes_pos (y : list Z) : y <> [] -> 0 < number_of_classes y.
Proof.
  intros Hy. rewrite <- length_unique.
  pose proof (unique_nonempty y Hy).
  destruct (np.unique y); [congruence|cbn; lia].
Qed.

(** What [minority_of] computes from the least count. *)
Lemma minority_of_least (y : list Z) :
  y <> [] ->
  exists m,
    (exists v, v ∈ y /\ np.occurrences y v = m)
    /\ (forall v, v ∈ y -> m <= np.occurrences y v)
    /\ minority_of y None = Ok m
    /\ forall min_size,
         minority_of y (Some min_size)
         = Ok (Z.max m (min_size / number_of_classes y)).
Proof.
  intros Hy. destruct (min_counts y Hy) as (m & E & Hex & Hle).
  exists m. split; [exact Hex|]. split; [exact Hle|].
  unfold minority_of. rewrite E. cbn [rbind]. split; [reflexivity|].
  intros min_size. now rewrite length_unique.
Qed.

(** C7. For a non-empty [y], the number of indices drawn per class is the
    least number of occurrences of a label of [y] when [min_size] is
    [None], and the larger of that number and [min_size // n] when
    [min_size] is given, where [n] is the number of classes and [//] rounds
    down: [n * (min_size // n) <= min_size < n * (min_size // n + 1)]. *)
Theorem minority_of_quota (y : list Z) :
  y <> [] ->
  exists m,
    (exists v, v ∈ y /\ np.occurrences y v = m)
    /\ (forall v, v ∈ y -> m <= np.occurrences y v)
    /\ minority_of y None = Ok m
    /\ forall min_size,
         let n := number_of_classes y in
         let d := min_size / n in
         n * d <= min_size < n * (d + 1)
         /\ minority_of y (Some min_size) = Ok (Z.max m d).
Proof.
  intros Hy. destruct (minority_of_least y Hy) as (m & Hex & Hle & Enone & Esome).
  exists m. split; [exact Hex|]. split; [exact Hle|]. split; [exact Enone|].
  intros min_size n d. split; [|apply Esome].
  pose proof (number_of_classes_pos y Hy) as Hn. fold n in Hn.
  unfold d. pose proof (Z.mul_div_le min_size n Hn).
  pose proof (Z.mul_succ_div_gt min_size n Hn). lia.
Qed.

Lemma minority_of_quota_witness :
  exists m,
    (exists v, v ∈ [0; 1; 1; 0; 1; 2] /\ np.occurrences [0; 1; 1; 0; 1; 2] v = m)
    /\ (forall v, v ∈ [0; 1; 1; 0; 1; 2] -> m <= np.occurrences [0; 1; 1; 0; 1; 2] v)
    /\ minority_of [0; 1; 1; 0; 1; 2] None = Ok m
    /\ forall min_size,
         let n := number_of_classes [0; 1; 1; 0; 1; 2] in
         let d := min_size / n in
         n * d <= min_size < n * (d + 1)
         /\ minority_of [0; 1; 1; 0; 1; 2] (Some min_size) = Ok (Z.max m d).
Proof. apply (minority_of_quota [0; 1; 1; 0; 1; 2]). discriminate. Defined.

Example minority_of_floor :
  minority_of [0; 1; 1; 0; 1; 2] (Some 7) = Ok 2
  /\ minority_of [0; 1; 1; 0; 1; 2] (Some 8) = Ok 2
  /\ minority_of [0; 1; 1; 0; 1; 2] (Some 9) = Ok 3
  /\ minority_of [0; 1; 1; 0; 1; 2] (Some (-7)) = Ok 1
  /\ minority_of [0; 1; 1; 0; 1; 2] None = Ok 1.
Proof. repeat split; reflexivity. Qed.

(** ** [balanced_dataset] *)

Section BalancedProperties.

Context {R : RandomState}.

(** C5. The result of [balanced_dataset] does not depend on the state in
    which the generator is found: the function seeds it with 0 before it
    draws. Two calls with the same arguments return the same selection, in
    the same order, and leave the generator in the same state. *)
Theorem balanced_dataset_deterministic {A} (X : list A) (y : list Z)
    (max_size min_size : option Z) (g1 g2 : rng) :
  balanced_dataset X y max_size min_size g1
  = balanced_dataset X y max_size min_size g2.
Proof. reflexivity. Qed.

Context {L : LawfulRandom R}.

(** For valid labels the selection is computed: it is a permutation of
    one part for each label. *)
Lemma balanced_idxs_spec (y : list Z) (min_size : option Z) (g : rng) :
  y <> [] -> Forall (Z.le 0) y ->
  exists quota parts idxs g',
    minority_of y min_size = Ok quota
    /\ 1 <= quota
    /\ Forall2 (part_of y quota) (np.unique y) parts
    /\ Permutation (concat parts) idxs
    /\ balanced_idxs y min_size g = (Ok idxs, g').
Proof.
  intros Hy Hpos.
  destruct (minority_of_least y Hy) as (m & (v & Hv & Ev) & Hle & Enone & Esome).
  assert (Hm : 1 <= m) by (rewrite <- Ev; now apply occurrences_pos).
  assert (Hq : exists quota, minority_of y min_size = Ok quota /\ 1 <= quota).
  { destruct min_size as [s|].
    - eexists. split; [apply Esome|]. lia.
    - exists m. now split. }
  destruct Hq as (quota & Eq & Hquota).
  destruct (draw_labels_spec y quota (np.unique y) ltac:(lia)
              (fun l Hl => proj1 (elem_of_unique y l) Hl) [] (seed 0))
    as (parts & g1 & Edraw & Hparts).
  destruct (permutation_permutes (concat parts) g1) as (idxs & g' & Eperm & Hperm).
  exists quota, parts, idxs, g'.
  split; [exact Eq|]. split; [exact Hquota|]. split; [exact Hparts|].
  split; [exact Hperm|].
  unfold balanced_idxs, bind, random_seed, lift, np.bincount.
  replace (forallb (Z.leb 0) y) with true.
  2:{ symmetry. apply forallb_forall. intros x Hx. apply Z.leb_le.
      rewrite Forall_forall in Hpos. apply Hpos. now apply list_elem_of_In. }
  rewrite Eq, Edraw. cbn [app]. exact Eperm.
Qed.

End BalancedProperties.

(** *** Truncation and indexing *)

Lemma slice_to_nonneg {A} (l : list A) (m : Z) :
  0 <= m -> Py.slice_to l m = firstn (Z.to_nat m) l.
Proof.
  intros Hm. unfold Py.slice_to.
  replace (m <? 0) with false by (symmetry; apply Z.ltb_ge; lia).
  destruct (Z.le_ge_cases m (Z.of_nat (length l))) as [Hle|Hge].
  - now rewrite Z.min_l by exact Hle.
  - rewrite Z.min_r by exact Hge. rewrite Nat2Z.id.
    rewrite firstn_all. symmetry. apply firstn_all2. lia.
Qed.

Lemma slice_to_prefix {A} (l : list A) (m : Z) :
  exists k, Py.slice_to l m = firstn k l.
Proof. unfold Py.slice_to. eauto. Qed.

Lemma truncate_prefix (max_size : option Z) (idxs : list nat) :
  exists k, truncate max_size idxs = firstn k idxs.
Proof.
  unfold truncate. destruct (truthy max_size), max_size as [m|];
    try (exists (length idxs); now rewrite firstn_all).
  apply slice_to_prefix.
Qed.

(** A positive [max_size] keeps the first [max_size] entries, as the
    specification says. *)
Lemma truncate_positive (m : Z) (idxs : list nat) :
  0 < m -> truncate (Some m) idxs = spec_truncate (Some m) idxs.
Proof.
  intros Hm. unfold truncate, truthy, spec_truncate.
  replace (m =? 0) with false by (symmetry; apply Z.eqb_neq; lia).
  cbn [negb]. apply slice_to_nonneg. lia.
Qed.

Lemma take_length {A} (a : list A) (idxs : list nat) (r : list A) :
  np.take a idxs = Ok r -> length r = length idxs.
Proof.
  unfold np.take. revert r. induction idxs as [|i idxs IH]; intros r E.
  - cbn in E. now inversion E.
  - cbn in E. destruct (a !! i); [|discriminate]. cbn in E.
    destruct (rmap _ idxs) eqn:E'; [|discriminate].
    cbn in E. inversion E; subst r. cbn. f_equal. now apply IH.
Qed.

Lemma take_ok {A} (a : list A) (idxs : list nat) :
  Forall (fun i => (i < length a)%nat) idxs ->
  exists r, np.take a idxs = Ok r.
Proof.
  unfold np.take. induction 1 as [|i idxs Hi _ (r & IH)]; [now exists []|].
  destruct (lookup_lt_is_Some_2 a i Hi) as [x Hx].
  cbn. rewrite Hx. cbn. rewrite IH. cbn. eauto.
Qed.

Lemma select_length {A} (X : list A) (y : list Z) (idxs : list nat) Xs ys :
  select X y idxs = Ok (Xs, ys) ->
  length Xs = length idxs /\ length ys = length idxs.
Proof.
  unfold select. destruct (np.take X idxs) as [Xs'|] eqn:EX; [|discriminate].
  cbn. destruct (np.take y idxs) as [ys'|] eqn:Ey; [|discriminate].
  cbn. intros E. inversion E; subst.
  split; eapply take_length; eassumption.
Qed.

Lemma select_ok {A} (X : list A) (y : list Z) (idxs : list nat) :
  length X = length y ->
  Forall (fun i => is_Some (y !! i)) idxs ->
  exists Xs ys, select X y idxs = Ok (Xs, ys).
Proof.
  intros Hlen Hvalid.
  assert (Hlt : Forall (fun i => (i < length y)%nat) idxs).
  { eapply Forall_impl; [exact Hvalid|]. intros i Hi. now apply lookup_lt_is_Some. }
  destruct (take_ok y idxs Hlt) as [ys Ey].
  rewrite <- Hlen in Hlt. destruct (take_ok X idxs Hlt) as [Xs EX].
  exists Xs, ys. unfold select. now rewrite EX, Ey.
Qed.

Section BalancedTruncation.

Context {R : RandomState}.

(** C3, as the code has it. A positive [max_size] truncates the permuted
    index list to its first [max_size] entries, which are exactly
    [max_size] entries when the list is that long. With [max_size = 0] the
    test [if max_size:] fails and the list is not truncated, as when
    [max_size] is [None]. *)
Theorem balanced_dataset_max_size {A} (X : list A) (y : list Z)
    (min_size : option Z) (g : rng) (idxs : list nat) (g' : rng) :
  balanced_idxs y min_size g = (Ok idxs, g') ->
  (forall m,
     0 < m ->
     balanced_dataset X y (Some m) min_size g
     = (select X y (spec_truncate (Some m) idxs), g')
     /\ (m <= Z.of_nat (length idxs) ->
         length (spec_truncate (Some m) idxs) = Z.to_nat m))
  /\ balanced_dataset X y (Some 0) min_size g = (select X y idxs, g')
  /\ balanced_dataset X y None min_size g = (select X y idxs, g').
Proof.
  intros E. unfold balanced_dataset, bind. rewrite E. unfold lift.
  split; [|split; reflexivity].
  intros m Hm. rewrite truncate_positive by exact Hm.
  split; [reflexivity|]. intros Hlen. cbn [spec_truncate].
  apply firstn_length_le. lia.
Qed.

End BalancedTruncation.

(** A balanced selection of twenty entries and [max_size = 5]: five
    entries are returned, the first five of the permuted list. *)
Lemma balanced_dataset_max_size_witness :
  exists idxs,
    fst (@balanced_idxs lcg y_twenty None 42) = Ok idxs
    /\ length idxs = 20%nat
    /\ fst (@balanced_dataset lcg _ X_twenty y_twenty (Some 5) None 42)
       = select X_twenty y_twenty (firstn 5 idxs)
    /\ length (firstn 5 idxs) = 5%nat.
Proof.
  set (idxs := [1; 10; 7; 16; 9; 18; 6; 12; 19; 0;
                17; 8; 4; 14; 11; 2; 3; 15; 13; 5]%nat).
  assert (E : @balanced_idxs lcg y_twenty None 42 = (Ok idxs, 1387182456))
    by (vm_compute; reflexivity).
  destruct (@balanced_dataset_max_size lcg _ X_twenty y_twenty None 42 idxs _ E)
    as (Hpos & _ & _).
  destruct (Hpos 5 ltac:(lia)) as [Hrun Hlen].
  exists idxs. rewrite E, Hrun.
  split; [reflexivity|]. split; [reflexivity|]. split; [reflexivity|].
  apply Hlen. cbn. lia.
Defined.

(** C3 as the specification states it fails for [max_size = 0]: the first
    zero entries of the permuted list are no entries, and the function
    returns both samples. The order of the two depends on the generator,
    their number does not. *)
Lemma balanced_dataset_max_size_zero :
  fst (@balanced_idxs lcg y_two None 42) = Ok [1; 0]%nat
  /\ spec_truncate (Some 0) [1; 0]%nat = []
  /\ fst (@balanced_dataset lcg _ X_two y_two (Some 0) None 42)
     = Ok (["b"; "a"]%string, [1; 0]).
Proof. repeat split; vm_compute; reflexivity. Qed.

Section BalancedSelection.

Context {R : RandomState} {L : LawfulRandom R}.

(** C10. With [min_size = None] the quota is the least class count, so
    the test [len(label_idxs) >= minority] holds for every label of [y]:
    each turn of the loop draws without replacement, and the selection
    holds no position twice, within a class or across classes. *)
Theorem balanced_without_replacement (y : list Z) (g : rng) :
  y <> [] -> Forall (Z.le 0) y ->
  exists quota idxs g',
    minority_of y None = Ok quota
    /\ (forall label, label ∈ np.unique y ->
          (Z.of_nat (length (np.where_eq y label)) >=? quota) = true)
    /\ (forall label g0, label ∈ np.unique y ->
          draw_label y quota label g0
          = choice (np.where_eq y label) quota false g0)
    /\ balanced_idxs y None g = (Ok idxs, g')
    /\ NoDup idxs
    /\ (forall label,
          NoDup (filter (fun i => y !! i = Some label) idxs)).
Proof.
  intros Hy Hpos.
  destruct (balanced_idxs_spec y None g Hy Hpos)
    as (quota & parts & idxs & g' & Eq & Hq & Hparts & Hperm & Erun).
  destruct (minority_of_least y Hy) as (m & _ & Hle & Enone & _).
  rewrite Enone in Eq. inversion Eq; subst m. clear Eq.
  assert (Hbig : forall label, label ∈ np.unique y ->
                   quota <= Z.of_nat (length (np.where_eq y label))).
  { intros label Hl. rewrite length_where_eq. apply Hle.
    now apply elem_of_unique. }
  assert (Hgeb : forall label, label ∈ np.unique y ->
                   (Z.of_nat (length (np.where_eq y label)) >=? quota) = true).
  { intros label Hl. rewrite Z.geb_leb. apply Z.leb_le. now apply Hbig. }
  assert (Hnd : NoDup idxs).
  { rewrite <- Hperm.
    exact (parts_NoDup y quota _ _ Hparts (NoDup_unique y) Hbig). }
  exists quota, idxs, g'.
  split; [exact Enone|]. split; [exact Hgeb|]. split.
  { intros label g0 Hl. unfold draw_label. now rewrite (Hgeb label Hl). }
  split; [exact Erun|]. split; [exact Hnd|].
  intros label. now apply NoDup_filter.
Qed.

(** C6, as the code has it. For a non-empty [y] of valid labels and
    features of the same length the function returns. Before truncation
    every class of [y] is selected exactly [quota] times, so the list has
    [number_of_classes * quota] entries. What is returned has no more
    entries than that, and no more than a positive [max_size]. *)
Theorem balanced_dataset_balanced {A} (X : list A) (y : list Z)
    (max_size min_size : option Z) (g : rng) :
  y <> [] -> Forall (Z.le 0) y -> length X = length y ->
  exists quota idxs g' Xs ys,
    minority_of y min_size = Ok quota
    /\ balanced_idxs y min_size g = (Ok idxs, g')
    /\ (forall label, label ∈ y -> label_count y label idxs = Z.to_nat quota)
    /\ Z.of_nat (length idxs) = number_of_classes y * quota
    /\ balanced_dataset X y max_size min_size g = (Ok (Xs, ys), g')
    /\ length ys = length Xs
    /\ Z.of_nat (length Xs) <= number_of_classes y * quota
    /\ (forall m, max_size = Some m -> 0 < m -> Z.of_nat (length Xs) <= m).
Proof.
  intros Hy Hpos HX.
  destruct (balanced_idxs_spec y min_size g Hy Hpos)
    as (quota & parts & idxs & g' & Eq & Hq & Hparts & Hperm & Erun).
  assert (Hlen : Z.of_nat (length idxs) = number_of_classes y * quota).
  { rewrite <- Hperm, (parts_length _ _ _ _ Hparts), <- length_unique. lia. }
  assert (Hvalid : Forall (fun i => is_Some (y !! i)) idxs).
  { rewrite <- Hperm. eapply Forall_impl; [exact (parts_valid _ _ _ _ Hparts)|].
    intros i (l & _ & E). now exists l. }
  destruct (truncate_prefix max_size idxs) as [k Ek].
  destruct (select_ok X y (truncate max_size idxs) HX) as (Xs & ys & Esel).
  { rewrite Ek. now apply Forall_take. }
  destruct (select_length _ _ _ _ _ Esel) as [HXs Hys].
  exists quota, idxs, g', Xs, ys.
  split; [exact Eq|]. split; [exact Erun|]. split.
  { intros label Hl. unfold label_count. rewrite <- Hperm.
    fold (label_count y label (concat parts)).
    rewrite (parts_count _ _ _ _ label Hparts (NoDup_unique y)).
    rewrite decide_True; [reflexivity|]. now apply elem_of_unique. }
  split; [exact Hlen|]. split.
  { unfold balanced_dataset, bind. rewrite Erun. unfold lift. now rewrite Esel. }
  split; [congruence|]. split.
  - rewrite HXs, Ek, length_take. lia.
  - intros m -> Hm. rewrite HXs, truncate_positive by exact Hm.
    cbn [spec_truncate]. rewrite length_take. lia.
Qed.

End BalancedSelection.

Lemma balanced_without_replacement_witness :
  exists idxs g',
    @balanced_idxs lcg y_six None 42 = (Ok idxs, g') /\ NoDup idxs.
Proof.
  destruct (@balanced_without_replacement lcg lcg_lawful y_six 42)
    as (quota & idxs & g' & _ & _ & _ & E & Hnd & _).
  - discriminate.
  - unfold y_six. repeat constructor; lia.
  - exists idxs, g'. split; [exact E | exact Hnd].
Defined.

Lemma balanced_dataset_balanced_witness :
  exists quota idxs Xs ys,
    minority_of y_six (Some 7) = Ok quota
    /\ fst (@balanced_idxs lcg y_six (Some 7) 42) = Ok idxs
    /\ (forall label, label ∈ y_six ->
                      label_count y_six label idxs = Z.to_nat quota)
    /\ fst (@balanced_dataset lcg _ X_six y_six (Some 3) (Some 7) 42) = Ok (Xs, ys)
    /\ Z.of_nat (length Xs) <= 3.
Proof.
  destruct (@balanced_dataset_balanced lcg lcg_lawful _ X_six y_six
              (Some 3) (Some 7) 42)
    as (quota & idxs & g' & Xs & ys & Eq & Ei & Hcount & _ & Erun & _ & _ & Hcap).
  - discriminate.
  - unfold y_six. repeat constructor; lia.
  - reflexivity.
  - exists quota, idxs, Xs, ys. rewrite Ei, Erun.
    split; [exact Eq|]. split; [reflexivity|]. split; [exact Hcount|].
    split; [reflexivity|]. apply (Hcap 3); [reflexivity|lia].
Defined.

(** C6 as the specification states it fails for [max_size = 0]: three
    entries are returned, more than [max_size]. *)
Lemma balanced_dataset_not_capped_by_zero :
  fst (@balanced_dataset lcg _ X_six y_six (Some 0) None 42)
  = Ok (["c"; "f"; "d"]%string, [1; 2; 0])
  /\ ~ (Z.of_nat (length ["c"; "f"; "d"]%string) <= 0).
Proof. split; [vm_compute; reflexivity | cbn; lia]. Qed.

(** * Further properties *)

(** ** More on [checkpoint_epoch] *)

Lemma ends_with_slash_app (a : string) :
  os.ends_with_slash a = true -> exists a', a = a' +:+ "/".
Proof.
  induction a as [|c a IH]; [discriminate|].
  destruct a as [|d a].
  - cbn. intros H. apply Ascii.eqb_eq in H as ->. now exists EmptyString.
  - intros H. destruct IH as [a' E]; [exact H|].
    exists (String c a'). push_append. now rewrite <- E.
Qed.

Lemma prefix_slash_free (p : string) :
  Str.free_of "/" p = true -> String.prefix "/" p = false.
Proof.
  destruct p as [|c p]; [reflexivity|]. unfold Str.free_of. cbn [Str.all_chars].
  intros H. apply andb_prop in H as [H _]. apply negb_true_iff in H.
  rewrite prefix_cons, Ascii.eqb_sym, H. reflexivity.
Qed.

(** The final segment of a joined path is the entry that was joined. *)
Lemma last_segment_join (dir name : string) :
  Str.free_of "/" name = true ->
  Py.index (Str.split "/" (os.path_join dir name)) (-1) = Ok name.
Proof.
  intros Hname. unfold os.path_join. rewrite (prefix_slash_free _ Hname).
  assert (Hplain : Py.index (Str.split "/" name) (-1) = Ok name).
  { rewrite (split_free _ _ Hname). reflexivity. }
  destruct dir as [|c dir]; [exact Hplain|].
  destruct (os.ends_with_slash (String c dir)) eqn:E.
  - destruct (ends_with_slash_app _ E) as [a' ->].
    rewrite append_assoc. change ("/" +:+ name) with (String "/" name).
    rewrite split_app_sep, (split_free _ _ Hname). apply index_last.
  - change ("/" +:+ name) with (String "/" name).
    rewrite split_app_sep, (split_free _ _ Hname). apply index_last.
Qed.

(** The epoch of a joined path is read off the directory entry alone: the
    directory may be empty or not, end with a slash or not, and contain
    dots and dashes. *)
Theorem checkpoint_epoch_join (dir name : string) :
  Str.free_of "/" name = true ->
  checkpoint_epoch (os.path_join dir name) = checkpoint_epoch name.
Proof.
  intros Hname. unfold checkpoint_epoch.
  rewrite (last_segment_join dir name Hname), (split_free _ _ Hname).
  reflexivity.
Qed.

Lemma checkpoint_epoch_join_witness :
  checkpoint_epoch (os.path_join "runs/v1.2-a" "checkpoint-epoch7.pt")
  = checkpoint_epoch "checkpoint-epoch7.pt".
Proof. apply checkpoint_epoch_join. reflexivity. Defined.

(** A directory entry without a dot has no field before the last dot:
    [split('.')[-2]] raises [IndexError]. *)
Theorem checkpoint_epoch_no_dot (dir name : string) :
  Str.free_of "/" name = true ->
  Str.free_of "." name = true ->
  checkpoint_epoch (os.path_join dir name) = Raise IndexError.
Proof.
  intros Hslash Hdot. unfold checkpoint_epoch.
  rewrite (last_segment_join dir name Hslash). cbn [rbind].
  rewrite (split_free _ _ Hdot). reflexivity.
Qed.

Lemma checkpoint_epoch_no_dot_witness :
  checkpoint_epoch (os.path_join "runs" "checkpoint-epoch7") = Raise IndexError.
Proof. apply checkpoint_epoch_no_dot; reflexivity. Defined.

Lemma prefix_app (old s : string) : String.prefix old (old +:+ s) = true.
Proof.
  induction old as [|c old IH]; push_append; [now destruct s|].
  now rewrite prefix_cons, Ascii.eqb_refl.
Qed.

Lemma replace_from_skip old new (a s : string) :
  Str.replace_from old new (String.length a) (a +:+ s)
  = Str.replace_from old new 0 s.
Proof.
  induction a as [|c a IH]; push_append; [reflexivity|].
  cbn [String.length Str.replace_from]. exact IH.
Qed.

(** An occurrence of [old] at the start is replaced, and the replacement
    goes on behind it. *)
Lemma replace_from_match c old new (s : string) :
  Str.replace_from (String c old) new 0 (String c old +:+ s)
  = new +:+ Str.replace_from (String c old) new 0 s.
Proof.
  push_append. cbn [Str.replace_from].
  rewrite <- append_cons, prefix_app.
  cbn [String.length]. rewrite Nat.sub_1_r. cbn [Nat.pred].
  now rewrite replace_from_skip.
Qed.

Lemma replace_epoch_word (s : string) :
  Str.free_of "e" s = true -> Str.replace "epoch" "" ("epoch" +:+ s) = s.
Proof.
  intros Hs. unfold Str.replace. rewrite replace_from_match. push_append.
  apply (replace_from_free "e"), Hs.
Qed.

(** The names the optimizer file rule is made for, [prefix-epochN.ext]:
    the word [epoch] is removed and [N] is returned. *)
Theorem checkpoint_epoch_compact (prefix ext : string) (n : N) :
  Str.free_of "." ext = true ->
  Str.free_of "/" ext = true ->
  checkpoint_epoch (prefix +:+ "-epoch" +:+ Str.of_N n +:+ "." +:+ ext)
  = Ok (Z.of_N n).
Proof.
  intros Hdot Hslash.
  assert (Hrest : Str.free_of "/" ("-epoch" +:+ Str.of_N n +:+ "." +:+ ext) = true).
  { unfold Str.free_of in *. rewrite !all_chars_app.
    fold (Str.free_of "/" (Str.of_N n)).
    rewrite (of_N_free_of "/" n eq_refl), Hslash. reflexivity. }
  destruct (split_app_free "/" prefix _ Hrest) as (l & h & _ & E).
  unfold checkpoint_epoch. rewrite E, index_last. cbn [rbind].
  replace (h +:+ "-epoch" +:+ Str.of_N n +:+ "." +:+ ext)
    with ((h +:+ "-epoch" +:+ Str.of_N n) +:+ String "." ext)
    by (rewrite !append_assoc; reflexivity).
  rewrite split_app_sep, (split_free "." ext Hdot).
  assert (Hstem : Str.free_of "." ("-epoch" +:+ Str.of_N n) = true).
  { unfold Str.free_of. rewrite all_chars_app.
    fold (Str.free_of "." (Str.of_N n)).
    now rewrite (of_N_free_of "." n eq_refl). }
  destruct (split_app_free "." h _ Hstem) as (l2 & h2 & _ & E2).
  rewrite E2, <- app_assoc. cbn [app]. rewrite index_before_last. cbn [rbind].
  replace (h2 +:+ "-epoch" +:+ Str.of_N n)
    with (h2 +:+ String "-" ("epoch" +:+ Str.of_N n))
    by reflexivity.
  assert (Htail : Str.free_of "-" ("epoch" +:+ Str.of_N n) = true).
  { unfold Str.free_of. rewrite all_chars_app.
    fold (Str.free_of "-" (Str.of_N n)).
    now rewrite (of_N_free_of "-" n eq_refl). }
  rewrite split_app_sep, (split_free "-" _ Htail).
  rewrite index_last. cbn [rbind].
  rewrite (replace_epoch_word _ (of_N_free_of "e" n eq_refl)).
  apply int_of_N.
Qed.

Lemma checkpoint_epoch_compact_witness :
  checkpoint_epoch ("runs/checkpoint" +:+ "-epoch" +:+ Str.of_N 12 +:+ "." +:+ "pt")
  = Ok 12.
Proof. apply (checkpoint_epoch_compact "runs/checkpoint" "pt" 12); reflexivity. Defined.

(** *** Epochs are not negative *)

Lemma split_fields_free sep (s : string) :
  Forall (fun f => Str.free_of sep f = true) (Str.split sep s).
Proof.
  induction s as [|c s IH]; cbn [Str.split].
  - repeat constructor.
  - destruct (Ascii.eqb c sep) eqn:Ec; [now constructor|].
    destruct (Str.split sep s) as [|h t]; [repeat constructor; cbn; now rewrite Ec|].
    inversion IH as [|? ? Hh Ht]; subst. constructor; [|exact Ht].
    unfold Str.free_of in *. cbn. now rewrite Ec, Hh.
Qed.

Lemma index_elem {A} (l : list A) (i : Z) (x : A) :
  Py.index l i = Ok x -> x ∈ l.
Proof.
  unfold Py.index. destruct (_ || _); [discriminate|].
  destruct (nth_error l _) eqn:E; [|discriminate].
  intros H. inversion H; subst. apply list_elem_of_In. eapply nth_error_In, E.
Qed.

Lemma replace_from_keeps_free c old new (s : string) :
  Str.free_of c new = true -> Str.free_of c s = true ->
  forall skip, Str.free_of c (Str.replace_from old new skip s) = true.
Proof.
  intros Hnew. unfold Str.free_of in *. induction s as [|d s IH]; [reflexivity|].
  cbn [Str.all_chars]. intros H skip. apply andb_prop in H as [Hd Hs].
  cbn [Str.replace_from]. destruct skip as [|k]; [|now apply IH].
  destruct (String.prefix old (String d s)).
  - rewrite all_chars_app, Hnew. now apply IH.
  - cbn [Str.all_chars]. rewrite Hd. now apply IH.
Qed.

Lemma lstrip_keeps_free c (s : string) :
  Str.free_of c s = true -> Str.free_of c (Str.lstrip s) = true.
Proof.
  unfold Str.free_of. induction s as [|d s IH]; [reflexivity|].
  intros H. cbn [Str.lstrip]. destruct (Str.is_space d); [|exact H].
  cbn in H. apply andb_prop in H as [_ H]. now apply IH.
Qed.

Lemma rstrip_keeps_free c (s : string) :
  Str.free_of c s = true -> Str.free_of c (Str.rstrip s) = true.
Proof.
  unfold Str.free_of. induction s as [|d s IH]; [reflexivity|].
  cbn [Str.all_chars]. intros H. apply andb_prop in H as [Hd Hs].
  cbn [Str.rstrip]. specialize (IH Hs).
  destruct (Str.rstrip s) as [|e r].
  - destruct (Str.is_space d); [reflexivity|]. cbn. now rewrite Hd.
  - cbn [Str.all_chars] in *. now rewrite Hd.
Qed.

Lemma parse_digits_nonneg (s : string) :
  forall acc b n, 0 <= acc -> Str.parse_digits acc b s = Some n -> 0 <= n.
Proof.
  induction s as [|c s IH]; intros acc b n Hacc; cbn [Str.parse_digits].
  - destruct b; [|discriminate]. intros H. inversion H. lia.
  - destruct (Str.is_digit c) eqn:Ec.
    + apply IH. unfold Str.is_digit in Ec. unfold Str.digit_value.
      apply andb_prop in Ec as [Ec _]. apply Nat.leb_le in Ec. lia.
    + destruct (Ascii.eqb c "_" && b); [|discriminate]. now apply IH.
Qed.

(** Without a minus sign in the text, [int] returns no negative number. *)
Lemma int_nonneg (s : string) (e : Z) :
  Str.free_of "-" s = true -> Str.int s = Ok e -> 0 <= e.
Proof.
  intros Hs. unfold Str.int.
  pose proof (rstrip_keeps_free _ _ (lstrip_keeps_free _ _ Hs)) as Hbody.
  destruct (Str.rstrip (Str.lstrip s)) as [|c d] eqn:Eb.
  - cbn. discriminate.
  - unfold Str.free_of in Hbody. cbn [Str.all_chars] in Hbody.
    apply andb_prop in Hbody as [Hc _]. apply negb_true_iff in Hc. rewrite Hc.
    destruct (Ascii.eqb c "+").
    + destruct (Str.parse_digits 0 false d) eqn:Ep; [|discriminate].
      intros H. inversion H; subst. eapply parse_digits_nonneg; [|exact Ep]. lia.
    + destruct (Str.parse_digits 0 false (String c d)) eqn:Ep; [|discriminate].
      intros H. inversion H; subst. eapply parse_digits_nonneg; [|exact Ep]. lia.
Qed.

(** Whatever the path, an epoch that [checkpoint_epoch] returns is not
    negative: the text it converts comes after the last dash. *)
Theorem checkpoint_epoch_nonneg (checkpoint_name : string) (e : Z) :
  checkpoint_epoch checkpoint_name = Ok e -> 0 <= e.
Proof.
  unfold checkpoint_epoch.
  destruct (Py.index (Str.split "/" checkpoint_name) (-1)) as [seg|]; [|discriminate].
  cbn [rbind].
  destruct (Py.index (Str.split "." seg) (-2)) as [stem|]; [|discriminate].
  cbn [rbind].
  destruct (Py.index (Str.split "-" stem) (-1)) as [tail|] eqn:Et; [|discriminate].
  cbn [rbind]. apply int_nonneg.
  apply index_elem in Et.
  pose proof (split_fields_free "-" stem) as Hall.
  rewrite Forall_forall in Hall. unfold Str.replace.
  apply replace_from_keeps_free; [reflexivity|]. now apply Hall.
Qed.

Lemma checkpoint_epoch_nonneg_witness : 0 <= 7.
Proof. apply (checkpoint_epoch_nonneg "runs/checkpoint--7.pt" 7). reflexivity. Defined.

(** ** More on [delete_old_ckpts] *)

Lemma at_least_app (e : Z) (a b : list Z) :
  at_least e (a ++ b) = (at_least e a + at_least e b)%nat.
Proof. unfold at_least. now rewrite filter_app, length_app. Qed.

Lemma at_least_all (e : Z) (l : list Z) :
  (forall x, x ∈ l -> e <= x) -> at_least e l = length l.
Proof.
  unfold at_least. induction l as [|x l IH]; intros H; [reflexivity|].
  rewrite filter_cons. rewrite decide_True by (apply H; left).
  cbn. f_equal. apply IH. intros y Hy. apply H. now right.
Qed.

Lemma at_least_none (e : Z) (l : list Z) :
  (forall x, x ∈ l -> ~ e <= x) -> at_least e l = 0%nat.
Proof.
  unfold at_least. induction l as [|x l IH]; intros H; [reflexivity|].
  rewrite filter_cons. rewrite decide_False by (apply H; left).
  apply IH. intros y Hy. apply H. now right.
Qed.

Lemma at_least_pos (e : Z) (l : list Z) : e ∈ l -> (0 < at_least e l)%nat.
Proof.
  intros He. unfold at_least.
  assert (H : e ∈ filter (fun x => e <= x) l)
    by (apply list_elem_of_filter; split; [lia|exact He]).
  destruct (filter _ l); [inversion H|cbn; lia].
Qed.

(** An epoch lies in the sorted list without its last [k] entries exactly
    if more than [k] entries are at least as large. *)
Lemma slice_mem_count (l : list Z) (k e : Z) :
  0 < k ->
  Py.mem e (Py.slice_to (np.sort l) (- k)) = true
  <-> e ∈ l /\ k < Z.of_nat (at_least e l).
Proof.
  intros Hk. rewrite slice_minus by exact Hk. rewrite mem_elem_of.
  set (s := np.sort l).
  assert (Hperm : s ≡ₚ l) by apply merge_sort_Permutation.
  assert (Hsorted : StronglySorted Z.le s).
  { apply (StronglySorted_merge_sort Z.le). }
  set (m := (length s - Z.to_nat k)%nat).
  assert (Hcount : at_least e l = (at_least e (take m s) + at_least e (drop m s))%nat).
  { rewrite <- at_least_app, take_drop. unfold at_least. now rewrite Hperm. }
  rewrite <- (take_drop m s) in Hsorted.
  split.
  - intros He.
    assert (Hin : e ∈ s).
    { rewrite <- (take_drop m s). apply elem_of_app. now left. }
    split; [now rewrite <- Hperm|].
    rewrite Hcount.
    rewrite (at_least_all e (drop m s))
      by (intros x Hx; exact (StronglySorted_app_1_elem_of _ _ _ _ _ Hsorted He Hx)).
    pose proof (at_least_pos e _ He) as Hpos.
    assert (Hm : (0 < m)%nat).
    { destruct m; [|lia]. rewrite take_0 in He. inversion He. }
    rewrite length_drop. unfold m in *. lia.
  - intros [He Hgt].
    destruct (decide (e ∈ take m s)) as [Hyes|Hno]; [exact Hyes|].
    exfalso.
    assert (Hdrop : e ∈ drop m s).
    { rewrite <- Hperm, <- (take_drop m s) in He.
      apply elem_of_app in He as [?|?]; [contradiction|assumption]. }
    rewrite Hcount in Hgt.
    rewrite (at_least_none e (take m s)) in Hgt.
    + pose proof (length_filter (fun x => e <= x) (drop m s)) as Hle.
      fold (at_least e (drop m s)) in Hle.
      rewrite length_drop in Hle. unfold m in *. lia.
    + intros x Hx Hex.
      pose proof (StronglySorted_app_1_elem_of _ _ _ _ _ Hsorted Hx Hdrop) as Hxe.
      assert (x = e) by lia. subst x. contradiction.
Qed.

Lemma promote_int64 : forall l : list Z,
  (forall x, x ∈ l -> - 2 ^ 63 <= x < 2 ^ 63) ->
  foldl (fun d y => np.promote d (np.dtype_of y)) np.int64 l = np.int64.
Proof.
  induction l as [|y l IH]; intros Hl; [reflexivity|].
  cbn [foldl]. assert (Hy : np.dtype_of y = np.int64).
  { unfold np.dtype_of. destruct (Hl y) as [Hlo Hhi]; [left|].
    apply Z.leb_le in Hlo. apply Z.ltb_lt in Hhi. now rewrite Hlo, Hhi. }
  rewrite Hy. cbn [np.promote]. apply IH. intros x Hx. apply Hl. now right.
Qed.

(** Integers that all fit [int64] are held as they are. *)
Lemma result_dtype_int64 (l : list Z) :
  l <> [] -> (forall x, x ∈ l -> - 2 ^ 63 <= x < 2 ^ 63) ->
  np.result_dtype l = np.int64.
Proof.
  destruct l as [|x l]; [congruence|]. intros _ Hl. unfold np.result_dtype.
  assert (Hx : np.dtype_of x = np.int64).
  { unfold np.dtype_of. destruct (Hl x) as [Hlo Hhi]; [left|].
    apply Z.leb_le in Hlo. apply Z.ltb_lt in Hhi. now rewrite Hlo, Hhi. }
  rewrite Hx. apply promote_int64. intros y Hy. apply Hl. now right.
Qed.

(** For a positive [num_save], the test of the two comprehensions holds
    for a checkpoint exactly if more than [num_save] elements of the array
    of the epochs are at least as large as its own epoch is as an element:
    files that share an epoch count once each. When all epochs fit
    [int64], the elements are the epochs themselves. *)
Theorem doomed_by_count (saved_epochs : list Z) (num_save : Z)
    (checkpoint : string) (e : Z) :
  0 < num_save ->
  checkpoint_epoch checkpoint = Ok e ->
  e ∈ saved_epochs ->
  doomed saved_epochs num_save checkpoint
  = Ok (bool_decide
          (num_save
           < Z.of_nat (at_least (np.cast (np.result_dtype saved_epochs) e)
                                (np.asarray saved_epochs))))
  /\ ((forall x, x ∈ saved_epochs -> - 2 ^ 63 <= x < 2 ^ 63) ->
      doomed saved_epochs num_save checkpoint
      = Ok (bool_decide (num_save < Z.of_nat (at_least e saved_epochs)))).
Proof.
  intros Hk Ee He.
  assert (Hgen : doomed saved_epochs num_save checkpoint
                 = Ok (bool_decide
                         (num_save
                          < Z.of_nat
                              (at_least (np.cast (np.result_dtype saved_epochs) e)
                                        (np.asarray saved_epochs))))).
  { unfold doomed. rewrite Ee. cbn [rbind]. f_equal.
    set (x := np.cast (np.result_dtype saved_epochs) e).
    assert (Hx : x ∈ np.asarray saved_epochs).
    { unfold x, np.asarray. apply list_elem_of_fmap. now exists e. }
    pose proof (slice_mem_count (np.asarray saved_epochs) num_save x Hk) as H.
    destruct (Py.mem x _) eqn:Em.
    - symmetry. apply bool_decide_eq_true. now apply H.
    - symmetry. apply bool_decide_eq_false. intros Hgt.
      assert (Hfalse : false = true) by (apply H; now split). discriminate. }
  split; [exact Hgen|]. intros Hfit. rewrite Hgen.
  assert (Hd : np.result_dtype saved_epochs <> np.float64).
  { rewrite result_dtype_int64; [discriminate| |exact Hfit].
    intros ->. inversion He. }
  now rewrite asarray_exact, cast_exact by exact Hd.
Qed.

Lemma doomed_by_count_witness :
  doomed [1; 2; 2; 3] 3 "runs/checkpoint-epoch1.pt"
  = Ok (bool_decide (3 < Z.of_nat (at_least 1 [1; 2; 2; 3]))).
Proof.
  destruct (doomed_by_count [1; 2; 2; 3] 3 "runs/checkpoint-epoch1.pt" 1)
    as [_ Hfit].
  - lia.
  - reflexivity.
  - left.
  - apply Hfit. intros x Hx.
    repeat (apply elem_of_cons in Hx as [->|Hx]; [lia|]). inversion Hx.
Defined.

Lemma rmap_length {A B} (f : A -> result B) (l : list A) (ys : list B) :
  rmap f l = Ok ys -> length ys = length l.
Proof.
  revert ys. induction l as [|a l IH]; intros ys E; cbn in E.
  - now inversion E.
  - destruct (f a); [|discriminate]. cbn in E.
    destruct (rmap f l); [|discriminate]. cbn in E.
    inversion E. cbn. f_equal. now apply IH.
Qed.

Lemma slice_to_empty {A} (l : list A) (k : Z) :
  k = 0 \/ Z.of_nat (length l) <= k -> Py.slice_to l (- k) = [].
Proof.
  intros Hk. unfold Py.slice_to.
  destruct (Z.ltb_spec (- k) 0) as [Hneg|Hpos].
  - destruct Hk as [->|Hk]; [lia|]. rewrite Z.max_l by lia. reflexivity.
  - rewrite Z.min_l by lia. replace (Z.to_nat (- k)) with 0%nat by lia.
    reflexivity.
Qed.

(** With an empty slice no checkpoint passes the test. *)
Lemma victims_none (saved_epochs : list Z) (num_save : Z) (l : list string) :
  Py.slice_to (np.sort (np.asarray saved_epochs)) (- num_save) = [] ->
  victims saved_epochs num_save l = [].
Proof.
  intros E. unfold victims. induction l as [|c l IH]; [reflexivity|].
  rewrite filter_cons, IH. unfold is_victim, doomed. rewrite E.
  destruct (checkpoint_epoch c); cbn; reflexivity.
Qed.

(** When [num_save] is 0 the slice [[:-0]] is [[:0]], the empty one; and
    when no more than [num_save] checkpoints are listed the slice is empty
    as well. In both cases [delete_old_ckpts] returns and removes
    nothing. *)
Theorem delete_old_ckpts_keeps_all save_path model_name num_save fs
    checkpoints saved_epochs :
  fst (list_checkpoints save_path model_name fs) = Ok checkpoints ->
  rmap checkpoint_epoch checkpoints = Ok saved_epochs ->
  num_save = 0 \/ Z.of_nat (length checkpoints) <= num_save ->
  delete_old_ckpts save_path model_name num_save fs = (Ok tt, fs).
Proof.
  intros Hl He Hk.
  assert (Hslice : Py.slice_to (np.sort (np.asarray saved_epochs)) (- num_save)
                   = []).
  { apply slice_to_empty.
    assert (Hlen : length (np.sort (np.asarray saved_epochs)) = length checkpoints).
    { unfold np.sort, np.asarray. rewrite merge_sort_Permutation, length_map.
      eapply rmap_length, He. }
    rewrite Hlen. exact Hk. }
  pose proof (rmap_ok_all _ _ _ He) as Hparse.
  rewrite (delete_old_ckpts_unfold _ _ _ _ _ (listed _ _ _ _ Hl)), He.
  unfold bind.
  rewrite (remove_each_ok id), (victims_none _ _ _ Hslice);
    [|assumption|rewrite (victims_none _ _ _ Hslice); constructor
     |rewrite (victims_none _ _ _ Hslice); intros p Hp; inversion Hp].
  cbn [map]. rewrite without_nil.
  rewrite (remove_each_ok companion), (victims_none _ _ _ Hslice);
    [|assumption|rewrite (victims_none _ _ _ Hslice); constructor
     |rewrite (victims_none _ _ _ Hslice); intros p Hp; inversion Hp].
  cbn [map]. now rewrite without_nil.
Qed.

Lemma delete_old_ckpts_keeps_all_witness :
  delete_old_ckpts "runs" "" 0 fs_five = (Ok tt, fs_five).
Proof.
  apply (delete_old_ckpts_keeps_all "runs" "" 0 fs_five
           (map (os.path_join "runs") (ckpt_names ["1"; "2"; "3"; "4"; "5"]))
           [1; 2; 3; 4; 5]).
  - reflexivity.
  - reflexivity.
  - left. reflexivity.
Defined.


(** After the call on the five checkpoints with [num_save = 3], the
    directory lists the three checkpoints that are left. *)
Example listing_after_delete :
  fst (list_checkpoints "runs" ""
         (snd (delete_old_ckpts "runs" "" 3 fs_five)))
  = Ok (map (os.path_join "runs") (ckpt_names ["3"; "4"; "5"])).
Proof. vm_compute. reflexivity. Qed.

(** No path made by the rule for optimizer files is listed as a
    checkpoint: the second comprehension cannot remove a checkpoint. *)
Theorem companion_never_listed save_path model_name fs checkpoints :
  fst (list_checkpoints save_path model_name fs) = Ok checkpoints ->
  forall p, companion p ∉ checkpoints.
Proof.
  intros Hl p Hp. exact (companion_not_listed _ _ _ _ _ p Hl Hp eq_refl).
Qed.

Lemma companion_never_listed_witness :
  companion "runs/checkpoint-epoch1.pt"
  ∉ map (os.path_join "runs") (ckpt_names ["1"; "2"; "3"; "4"; "5"]).
Proof.
  apply (companion_never_listed "runs" "" fs_five
           (map (os.path_join "runs") (ckpt_names ["1"; "2"; "3"; "4"; "5"]))).
  reflexivity.
Defined.

(** ** More on [balanced_dataset] *)

Lemma take_lookup {A} (a : list A) (idxs : list nat) (r : list A) :
  np.take a idxs = Ok r -> Forall2 (fun i x => a !! i = Some x) idxs r.
Proof.
  unfold np.take. revert r. induction idxs as [|i idxs IH]; intros r E; cbn in E.
  - inversion E. constructor.
  - destruct (a !! i) eqn:Ei; [|discriminate]. cbn in E.
    destruct (rmap _ idxs) eqn:E'; [|discriminate]. cbn in E.
    inversion E; subst r. constructor; [exact Ei|]. now apply IH.
Qed.

(** The two lists that [select] returns go together: the entries at a
    position are the feature and the label of one sample. *)
Lemma select_pairs {A} (X : list A) (y : list Z) (idxs : list nat) Xs ys :
  select X y idxs = Ok (Xs, ys) ->
  Forall2 (fun x label => exists i, i ∈ idxs /\ X !! i = Some x /\ y !! i = Some label)
          Xs ys.
Proof.
  unfold select. destruct (np.take X idxs) as [Xs'|] eqn:EX; [|discriminate].
  cbn. destruct (np.take y idxs) as [ys'|] eqn:Ey; [|discriminate].
  cbn. intros E. inversion E; subst. clear E.
  apply take_lookup in EX, Ey. revert ys Ey.
  induction EX as [|i x idxs Xs Hi _ IH]; intros ys Ey; inversion Ey; subst.
  - constructor.
  - constructor.
    + exists i. split; [left|]. now split.
    + eapply Forall2_impl; [now apply IH|].
      intros x0 label0 (j & Hj & Hjx). exists j. split; [now right|exact Hjx].
Qed.

Section BalancedEdges.

Context {R : RandomState}.

(** An empty [y] has no least class count and a negative label cannot be
    counted: the call raises [ValueError], whatever the features and the
    sizes, after it has seeded the generator. *)
Theorem balanced_dataset_invalid_labels {A} (X : list A) (y : list Z)
    (max_size min_size : option Z) (g : rng) :
  y = [] \/ Exists (fun label => label < 0) y ->
  balanced_dataset X y max_size min_size g = (Raise ValueError, seed 0).
Proof.
  intros Hy. unfold balanced_dataset, balanced_idxs, bind, random_seed, lift.
  destruct (np.bincount y) as [counts|e] eqn:Eb.
  - destruct Hy as [->|Hneg]; [reflexivity|]. exfalso.
    unfold np.bincount in Eb.
    destruct (forallb (Z.leb 0) y) eqn:Ef; [|discriminate].
    rewrite forallb_forall in Ef. apply Exists_exists in Hneg as (l & Hl & Hlt).
    apply list_elem_of_In, Ef, Z.leb_le in Hl. lia.
  - unfold np.bincount in Eb. destruct (forallb (Z.leb 0) y); [discriminate|].
    now inversion Eb.
Qed.

(** What is returned are samples of the input: the feature and the label
    at a position of the result are the feature and the label at one
    position of [X] and [y]. *)
Theorem balanced_dataset_pairs {A} (X : list A) (y : list Z)
    (max_size min_size : option Z) (g g' : rng) Xs ys :
  balanced_dataset X y max_size min_size g = (Ok (Xs, ys), g') ->
  Forall2 (fun x label => exists i, X !! i = Some x /\ y !! i = Some label) Xs ys.
Proof.
  unfold balanced_dataset, bind.
  destruct (balanced_idxs y min_size g) as [[idxs|e] g1]; [|discriminate].
  unfold lift. intros E. inversion E as [[Esel Eg]].
  eapply Forall2_impl; [apply (select_pairs _ _ _ _ _ Esel)|].
  intros x l (i & _ & H). now exists i.
Qed.

End BalancedEdges.

Lemma balanced_dataset_invalid_labels_witness :
  @balanced_dataset lcg _ X_two [0; -1] None None 42 = (Raise ValueError, 0).
Proof.
  apply (@balanced_dataset_invalid_labels lcg _ X_two [0; -1] None None 42).
  right. right. left. lia.
Defined.

Lemma balanced_dataset_pairs_witness :
  Forall2 (fun x label => exists i, X_six !! i = Some x /\ y_six !! i = Some label)
          ["f"; "e"; "a"]%string [2; 1; 0].
Proof.
  apply (@balanced_dataset_pairs lcg _ X_six y_six (Some 3) (Some 7) 42 1772930244).
  vm_compute. reflexivity.
Defined.

(** The labels that [take] returns for a list of positions occur as often
    as the positions select them. *)
Lemma take_occurrences (y : list Z) (idxs : list nat) (ys : list Z) (label : Z) :
  np.take y idxs = Ok ys ->
  np.occurrences ys label = Z.of_nat (label_count y label idxs).
Proof.
  intros E. apply take_lookup in E. unfold np.occurrences, label_count. f_equal.
  induction E as [|i v idxs ys Hi _ IH]; [reflexivity|].
  rewrite !filter_cons, Hi.
  destruct (decide (v = label)) as [->|Hne].
  - rewrite decide_True by reflexivity. cbn. now rewrite IH.
  - rewrite decide_False by congruence. exact IH.
Qed.

Lemma select_labels {A} (X : list A) (y : list Z) (idxs : list nat) Xs ys :
  select X y idxs = Ok (Xs, ys) -> np.take y idxs = Ok ys.
Proof.
  unfold select. destruct (np.take X idxs); [|discriminate]. cbn.
  destruct (np.take y idxs); [|discriminate]. cbn. intros E. now inversion E.
Qed.

Lemma elem_of_concat {A} (x : A) (ls : list (list A)) :
  x ∈ concat ls <-> exists l, x ∈ l /\ l ∈ ls.
Proof.
  induction ls as [|l0 ls IH]; cbn [concat].
  - split; [intros H; inversion H|intros (l & _ & H); inversion H].
  - rewrite elem_of_app, IH. split.
    + intros [H|(l & Hx & Hl)]; [exists l0; split; [exact H|left]|].
      exists l. split; [exact Hx|now right].
    + intros (l & Hx & Hl). apply elem_of_cons in Hl as [->|Hl]; [now left|].
      right. now exists l.
Qed.

(** The positions of the labels of [y], label by label, are all the
    positions of [y]. *)
Lemma where_eq_cover (y : list Z) :
  concat (map (np.where_eq y) (np.unique y)) ≡ₚ seq 0 (length y).
Proof.
  apply NoDup_Permutation.
  - pose proof (NoDup_unique y) as Hnd.
    induction (np.unique y) as [|v labels IH]; [constructor|].
    apply NoDup_cons in Hnd as [Hv Hnd]. cbn [map concat].
    apply NoDup_app. split; [apply NoDup_where_eq|]. split; [|now apply IH].
    intros i Hi Hi'. apply elem_of_where_eq in Hi.
    apply elem_of_concat in Hi' as (part & Hpart & Hin).
    apply list_elem_of_fmap in Hin as (w & -> & Hw).
    apply elem_of_where_eq in Hpart. rewrite Hi in Hpart.
    inversion Hpart; subst w. contradiction.
  - apply NoDup_seq.
  - intros i. rewrite elem_of_seq. split.
    + intros Hi. apply elem_of_concat in Hi as (part & Hpart & Hin).
      apply list_elem_of_fmap in Hin as (w & -> & Hw).
      apply elem_of_where_eq, lookup_lt_Some in Hpart. lia.
    + intros [_ Hi]. destruct (lookup_lt_is_Some_2 y i ltac:(lia)) as [v Hv].
      apply elem_of_concat. exists (np.where_eq y v).
      split; [now apply elem_of_where_eq|].
      apply list_elem_of_fmap. exists v. split; [reflexivity|].
      apply elem_of_unique. eapply list_elem_of_lookup_2, Hv.
Qed.

(** A part as large as its class is the class. *)
Lemma part_full (y : list Z) (minority label : Z) (part : list nat) :
  part_of y minority label part ->
  minority = Z.of_nat (length (np.where_eq y label)) ->
  part ≡ₚ np.where_eq y label.
Proof.
  intros (Hlen & Hall & Hnd) Hm.
  apply submseteq_length_Permutation; [|lia].
  apply NoDup_submseteq; [apply Hnd; lia|].
  intros i Hi. rewrite Forall_forall in Hall. now apply elem_of_where_eq, Hall.
Qed.

Lemma parts_full (y : list Z) (minority : Z) (labels : list Z)
    (parts : list (list nat)) :
  Forall2 (part_of y minority) labels parts ->
  (forall label, label ∈ labels ->
                 minority = Z.of_nat (length (np.where_eq y label))) ->
  concat parts ≡ₚ concat (map (np.where_eq y) labels).
Proof.
  induction 1 as [|label part labels parts Hpart _ IH]; intros Hm; [reflexivity|].
  cbn [map concat]. rewrite (part_full _ _ _ _ Hpart) by (apply Hm; left).
  rewrite IH; [reflexivity|]. intros l Hl. apply Hm. now right.
Qed.

Section BalancedGuarantees.

Context {R : RandomState} {L : LawfulRandom R}.

(** Without [max_size], [min_size] is reached up to rounding: the result
    has [number_of_classes * quota] entries, which is more than
    [min_size - number_of_classes]. *)
Theorem balanced_dataset_min_size {A} (X : list A) (y : list Z)
    (min_size : Z) (g : rng) :
  y <> [] -> Forall (Z.le 0) y -> length X = length y ->
  exists quota Xs ys g',
    minority_of y (Some min_size) = Ok quota
    /\ balanced_dataset X y None (Some min_size) g = (Ok (Xs, ys), g')
    /\ Z.of_nat (length Xs) = number_of_classes y * quota
    /\ min_size - number_of_classes y < Z.of_nat (length Xs).
Proof.
  intros Hy Hpos HX.
  destruct (balanced_idxs_spec y (Some min_size) g Hy Hpos)
    as (quota & parts & idxs & g' & Eq & Hq & Hparts & Hperm & Erun).
  assert (Hlen : Z.of_nat (length idxs) = number_of_classes y * quota).
  { rewrite <- Hperm, (parts_length _ _ _ _ Hparts), <- length_unique. lia. }
  destruct (select_ok X y idxs HX) as (Xs & ys & Esel).
  { rewrite <- Hperm. eapply Forall_impl; [exact (parts_valid _ _ _ _ Hparts)|].
    intros i (l & _ & E). now exists l. }
  destruct (select_length _ _ _ _ _ Esel) as [HXs _].
  exists quota, Xs, ys, g'. split; [exact Eq|]. split.
  { unfold balanced_dataset, bind. rewrite Erun. unfold lift, truncate. cbn.
    now rewrite Esel. }
  rewrite HXs. split; [exact Hlen|]. rewrite Hlen.
  destruct (minority_of_least y Hy) as (m & _ & _ & _ & Esome).
  rewrite Esome in Eq. inversion Eq as [Equota].
  pose proof (number_of_classes_pos y Hy) as Hn.
  pose proof (Z.mul_succ_div_gt min_size _ Hn).
  assert (min_size / number_of_classes y <= quota) by lia. nia.
Qed.

(** Without [max_size] the returned labels are balanced: every class of
    [y] occurs exactly [quota] times among them, also when it has fewer
    samples than that and is drawn with replacement. *)
Theorem balanced_dataset_labels_balanced {A} (X : list A) (y : list Z)
    (min_size : option Z) (g : rng) :
  y <> [] -> Forall (Z.le 0) y -> length X = length y ->
  exists quota Xs ys g',
    minority_of y min_size = Ok quota
    /\ balanced_dataset X y None min_size g = (Ok (Xs, ys), g')
    /\ forall label, label ∈ y -> np.occurrences ys label = quota.
Proof.
  intros Hy Hpos HX.
  destruct (balanced_idxs_spec y min_size g Hy Hpos)
    as (quota & parts & idxs & g' & Eq & Hq & Hparts & Hperm & Erun).
  destruct (select_ok X y idxs HX) as (Xs & ys & Esel).
  { rewrite <- Hperm. eapply Forall_impl; [exact (parts_valid _ _ _ _ Hparts)|].
    intros i (l & _ & E). now exists l. }
  exists quota, Xs, ys, g'. split; [exact Eq|]. split.
  { unfold balanced_dataset, bind. rewrite Erun. unfold lift, truncate. cbn.
    now rewrite Esel. }
  intros label Hl.
  rewrite (take_occurrences y idxs ys label (select_labels _ _ _ _ _ Esel)).
  unfold label_count. rewrite <- Hperm. fold (label_count y label (concat parts)).
  rewrite (parts_count _ _ _ _ label Hparts (NoDup_unique y)).
  rewrite decide_True by now apply elem_of_unique. lia.
Qed.

(** When all classes of [y] are equally large and [min_size] is not
    given, nothing is dropped: the selection is a permutation of all
    positions of [y]. *)
Theorem balanced_idxs_of_balanced (y : list Z) (g : rng) :
  y <> [] -> Forall (Z.le 0) y ->
  (forall v w, v ∈ y -> w ∈ y -> np.occurrences y v = np.occurrences y w) ->
  exists idxs g',
    balanced_idxs y None g = (Ok idxs, g')
    /\ idxs ≡ₚ seq 0 (length y).
Proof.
  intros Hy Hpos Hequal.
  destruct (balanced_idxs_spec y None g Hy Hpos)
    as (quota & parts & idxs & g' & Eq & Hq & Hparts & Hperm & Erun).
  exists idxs, g'. split; [exact Erun|].
  rewrite <- Hperm, <- where_eq_cover.
  apply (parts_full _ _ _ _ Hparts).
  intros label Hl. apply (proj1 (elem_of_unique y label)) in Hl.
  destruct (minority_of_least y Hy) as (m & (v & Hv & Ev) & _ & Enone & _).
  rewrite Enone in Eq. inversion Eq as [Em].
  rewrite length_where_eq, <- Em, <- Ev. apply Hequal; assumption.
Qed.

End BalancedGuarantees.

Lemma valid_six : Forall (Z.le 0) y_six.
Proof. unfold y_six. repeat constructor; lia. Qed.

Lemma balanced_dataset_min_size_witness :
  exists quota Xs ys g',
    minority_of y_six (Some 7) = Ok quota
    /\ @balanced_dataset lcg _ X_six y_six None (Some 7) 42 = (Ok (Xs, ys), g')
    /\ Z.of_nat (length Xs) = number_of_classes y_six * quota
    /\ 7 - number_of_classes y_six < Z.of_nat (length Xs).
Proof.
  apply (@balanced_dataset_min_size lcg lcg_lawful _ X_six y_six 7 42).
  - discriminate.
  - exact valid_six.
  - reflexivity.
Defined.

Lemma balanced_dataset_labels_balanced_witness :
  exists quota Xs ys g',
    minority_of y_six (Some 7) = Ok quota
    /\ @balanced_dataset lcg _ X_six y_six None (Some 7) 42 = (Ok (Xs, ys), g')
    /\ forall label, label ∈ y_six -> np.occurrences ys label = quota.
Proof.
  apply (@balanced_dataset_labels_balanced lcg lcg_lawful _ X_six y_six (Some 7) 42).
  - discriminate.
  - exact valid_six.
  - reflexivity.
Defined.

Lemma balanced_idxs_of_balanced_witness :
  exists idxs g',
    @balanced_idxs lcg y_two None 42 = (Ok idxs, g')
    /\ idxs ≡ₚ seq 0 (length y_two).
Proof.
  apply (@balanced_idxs_of_balanced lcg lcg_lawful y_two 42).
  - discriminate.
  - unfold y_two. repeat constructor; lia.
  - intros v w Hv Hw. unfold y_two in *.
    apply elem_of_cons in Hv as [->|Hv]; [|apply list_elem_of_singleton in Hv as ->];
    (apply elem_of_cons in Hw as [->|Hw]; [|apply list_elem_of_singleton in Hw as ->]);
    reflexivity.
Defined.

(** ** [GaussianBlur] *)

(** For a kernel size that is not negative, [__init__] keeps an odd size
    [k]: the size asked for when that is odd, the next integer when it is
    even. The radius is half of [k - 1], and [__call__] evaluates the
    Gaussian at the [k] integers from [-r] to [r], as many as the kernel
    has weights. *)
Theorem gaussian_blur_kernel (kernel_size : Z) :
  0 <= kernel_size ->
  let b := gaussian_blur_init kernel_size in
  Z.odd (blur_k b) = true
  /\ blur_k b = (if Z.odd kernel_size then kernel_size else kernel_size + 1)
  /\ 0 <= blur_r b
  /\ blur_k b = 2 * blur_r b + 1
  /\ Z.of_nat (length (blur_taps b)) = blur_k b
  /\ (forall t, t ∈ blur_taps b <-> - blur_r b <= t <= blur_r b).
Proof.
  intros Hk b. unfold b, gaussian_blur_init, blur_taps, np_arange. cbn [blur_k blur_r].
  pose proof (Z.div_mod kernel_size 2 ltac:(lia)) as Hdm.
  pose proof (Z.mod_pos_bound kernel_size 2 ltac:(lia)) as Hmod.
  assert (Hr : 0 <= kernel_size / 2) by (apply Z.div_pos; lia).
  split.
  { rewrite Z.add_comm, Z.mul_comm. rewrite Z.odd_add_mul_2. reflexivity. }
  split.
  { rewrite (Zodd_mod kernel_size).
    destruct (Z.eqb_spec (kernel_size mod 2) 1); lia. }
  split; [exact Hr|]. split; [lia|]. split.
  { rewrite length_seqZ. lia. }
  intros t. rewrite elem_of_seqZ. lia.
Qed.

Lemma gaussian_blur_kernel_witness :
  blur_k (gaussian_blur_init 4) = 5
  /\ blur_r (gaussian_blur_init 4) = 2
  /\ Z.of_nat (length (blur_taps (gaussian_blur_init 4))) = 5.
Proof.
  destruct (gaussian_blur_kernel 4 ltac:(lia)) as (_ & Hk & _ & _ & Hlen & _).
  split; [exact Hk|]. split; [reflexivity|]. rewrite Hlen. exact Hk.
Defined.

(** ** The data sets *)

Lemma index_in_range {A} (l : list A) (i : Z) :
  - Z.of_nat (length l) <= i < Z.of_nat (length l) ->
  exists x, Py.index l i = Ok x.
Proof.
  intros Hi. unfold Py.index.
  set (j := if i <? 0 then i + Z.of_nat (length l) else i).
  assert (Hj : 0 <= j < Z.of_nat (length l)).
  { unfold j. destruct (Z.ltb_spec i 0); lia. }
  replace (j <? 0) with false by (symmetry; apply Z.ltb_ge; lia).
  replace (Z.of_nat (length l) <=? j) with false by (symmetry; apply Z.leb_gt; lia).
  cbn [orb].
  destruct (nth_error l (Z.to_nat j)) as [x|] eqn:E; [now exists x|].
  apply nth_error_None in E. lia.
Qed.

Lemma index_out_of_range {A} (l : list A) (i : Z) :
  ~ (- Z.of_nat (length l) <= i < Z.of_nat (length l)) ->
  Py.index l i = Raise IndexError.
Proof.
  intros Hi. unfold Py.index.
  set (j := if i <? 0 then i + Z.of_nat (length l) else i).
  assert (Hj : j < 0 \/ Z.of_nat (length l) <= j).
  { unfold j. destruct (Z.ltb_spec i 0); lia. }
  destruct Hj as [Hj|Hj].
  - replace (j <? 0) with true by (symmetry; apply Z.ltb_lt; lia). reflexivity.
  - replace (Z.of_nat (length l) <=? j) with true by (symmetry; apply Z.leb_le; lia).
    now rewrite orb_true_r.
Qed.

Section DatasetProperties.

Context {W Img Target View : Type}.
Variable open_image : string -> stateful W Img.

(** A data set that [__init__] has accepted has as many targets as
    paths. So [__getitem__] finds a path and a target for every index from
    [-len] to [len - 1] and goes on to load that pair; for any other index
    it raises [IndexError] before a file is opened. *)
Theorem custom_getitem_indexing (X : list string) (y : list Target)
    (train : bool) transform target_transform (ds : CustomDataset) (index : Z) :
  custom_dataset_init X y train transform target_transform = Some ds ->
  custom_len ds = length y
  /\ (- Z.of_nat (custom_len ds) <= index < Z.of_nat (custom_len ds) ->
      exists path target,
        Py.index X index = Ok path
        /\ Py.index y index = Ok target
        /\ custom_getitem open_image ds index = load_item open_image ds path target)
  /\ (~ (- Z.of_nat (custom_len ds) <= index < Z.of_nat (custom_len ds)) ->
      forall w, custom_getitem open_image ds index w = (Raise IndexError, w)).
Proof.
  unfold custom_dataset_init. destruct (Nat.eqb_spec (length X) (length y)) as [E|];
    [|discriminate].
  intros H. inversion H; subst ds. clear H. unfold custom_len. cbn [cd_X cd_y].
  split; [exact E|]. split.
  - intros Hi. destruct (index_in_range X index Hi) as [path Hp].
    rewrite E in Hi. destruct (index_in_range y index Hi) as [target Ht].
    exists path, target. split; [exact Hp|]. split; [exact Ht|].
    unfold custom_getitem, bind, lift. cbn [cd_X cd_y]. now rewrite Hp, Ht.
  - intros Hi w. unfold custom_getitem, bind, lift. cbn [cd_X cd_y].
    now rewrite (index_out_of_range X index Hi).
Qed.

(** When the transform does not raise, [__getitem__] of a contrastive
    data set finds the image of an index in range and returns exactly
    [n_views] views of it, none when [n_views] is not positive: the
    results of calling the transform on this one image once per view, each
    call starting in the state the one before has left. *)
Theorem contrastive_getitem_views (ds : @ContrastiveDataset W Img View)
    (index : Z) (w : W) :
  (forall img w0, exists v w1, cv_transform ds img w0 = (Ok v, w1)) ->
  - Z.of_nat (contrastive_len ds) <= index < Z.of_nat (contrastive_len ds) ->
  exists img vs w',
    Py.index (cv_X ds) index = Ok img
    /\ contrastive_getitem ds index w = (Ok vs, w')
    /\ length vs = Z.to_nat (cv_n_views ds)
    /\ called (cv_transform ds) img w vs w'.
Proof.
  intros Htotal Hi. unfold contrastive_getitem, bind at 1, lift.
  destruct (index_in_range (cv_X ds) index Hi) as [img Himg].
  exists img. rewrite Himg.
  generalize (Z.to_nat (cv_n_views ds)) as n. intros n. revert w.
  induction n as [|n IH]; intros w.
  - exists [], w. split; [reflexivity|]. split; [reflexivity|].
    split; [reflexivity|constructor].
  - cbn [views]. unfold bind at 1.
    destruct (Htotal img w) as (v & w1 & Hv). rewrite Hv.
    unfold bind at 1. destruct (IH w1) as (vs & w' & _ & -> & Hlen & Hcalls).
    exists (v :: vs), w'. split; [reflexivity|]. split; [reflexivity|].
    split; [cbn; now rewrite Hlen|]. now apply (called_cons _ _ w w1 w').
Qed.

End DatasetProperties.

Lemma custom_getitem_indexing_witness :
  custom_len labelled_files = 2%nat
  /\ custom_getitem open_existing labelled_files (-1)
     = load_item open_existing labelled_files "runs/b.png" 1
  /\ (forall w, custom_getitem open_existing labelled_files 2 w
                = (Raise IndexError, w)).
Proof.
  destruct (custom_getitem_indexing open_existing
              ["runs/a.png"; "runs/b.png"] [0; 1] true None None
              labelled_files (-1) eq_refl) as (Hlen & Hin & _).
  destruct (custom_getitem_indexing open_existing
              ["runs/a.png"; "runs/b.png"] [0; 1] true None None
              labelled_files 2 eq_refl) as (_ & _ & Hout).
  split; [exact Hlen|]. split.
  - destruct Hin as (path & target & Hp & Ht & E); [cbn; lia|].
    cbn in Hp, Ht. inversion Hp; inversion Ht; subst. exact E.
  - apply Hout. cbn. lia.
Defined.

Lemma contrastive_getitem_views_witness :
  exists img vs w',
    Py.index (cv_X two_views) 1 = Ok img
    /\ contrastive_getitem two_views 1 42 = (Ok vs, w')
    /\ length vs = Z.to_nat (cv_n_views two_views)
    /\ called (cv_transform two_views) img 42 vs w'.
Proof.
  apply (contrastive_getitem_views two_views 1 42).
  - intros img w0. eexists _, _. reflexivity.
  - cbn. lia.
Defined.

(** ** [adjust_learning_rate] *)

(** *** Rounding stays in range *)

Lemma digits2_size (m : positive) : digits2_pos m = Pos.size m.
Proof.
  induction m as [p IH|p IH|]; cbn [digits2_pos Pos.size];
    [now rewrite IH|now rewrite IH|reflexivity].
Qed.

Lemma digits2_bound (m : positive) (D : Z) :
  Z.pos m < 2 ^ D -> 0 <= D -> Z.pos (digits2_pos m) <= D.
Proof.
  intros Hm HD. rewrite digits2_size.
  pose proof (Pos.size_le m) as Hle.
  assert (Hz : 2 ^ Z.pos (Pos.size m) <= 2 * Z.pos m).
  { change 2 with (Z.pos 2) at 1. rewrite <- Pos2Z.inj_pow.
    change (2 * Z.pos m) with (Z.pos m~0). exact Hle. }
  destruct (Z_lt_le_dec D (Z.pos (Pos.size m))) as [Hlt|]; [|assumption].
  exfalso.
  assert (Hpow : 2 ^ (D + 1) <= 2 ^ Z.pos (Pos.size m))
    by (apply Z.pow_le_mono_r; lia).
  rewrite Z.pow_add_r in Hpow by lia. lia.
Qed.

Lemma Zdigits2_bound (m D : Z) :
  0 <= m < 2 ^ D -> 0 <= D -> Zdigits2 m <= D.
Proof.
  intros [Hlo Hhi] HD. destruct m as [|p|p]; [exact HD| |lia].
  now apply digits2_bound.
Qed.

Lemma shr_1_m (mrs : shr_record) :
  0 <= shr_m mrs -> shr_m (shr_1 mrs) = shr_m mrs / 2.
Proof.
  destruct mrs as [m r s]. cbn [shr_m]. intros Hm.
  rewrite <- Z.div2_div.
  destruct m as [|[p|p|]|p]; try reflexivity; lia.
Qed.

Lemma pow2_xO (p : positive) : 2 ^ Z.pos p~0 = 2 ^ Z.pos p * 2 ^ Z.pos p.
Proof. rewrite <- Z.pow_add_r by lia. f_equal. lia. Qed.

Lemma pow2_xI (p : positive) : 2 ^ Z.pos p~1 = 2 * (2 ^ Z.pos p * 2 ^ Z.pos p).
Proof.
  rewrite <- Z.pow_add_r, <- Z.pow_succ_r by lia. f_equal. lia.
Qed.

Lemma iter_shr_m (p : positive) :
  forall mrs, 0 <= shr_m mrs ->
    shr_m (SpecFloat.iter_pos shr_1 p mrs) = shr_m mrs / 2 ^ Z.pos p.
Proof.
  induction p as [p IH|p IH|]; intros mrs Hm; cbn [SpecFloat.iter_pos].
  - assert (H1 : 0 <= shr_m (shr_1 mrs))
      by (rewrite shr_1_m by exact Hm; apply Z.div_pos; lia).
    assert (H2 : 0 <= shr_m (SpecFloat.iter_pos shr_1 p (shr_1 mrs)))
      by (rewrite IH by exact H1; apply Z.div_pos; lia).
    rewrite (IH _ H2), (IH _ H1), shr_1_m by exact Hm.
    rewrite !Z.div_div by lia. now rewrite pow2_xI.
  - assert (H1 : 0 <= shr_m (SpecFloat.iter_pos shr_1 p mrs))
      by (rewrite IH by exact Hm; apply Z.div_pos; lia).
    rewrite (IH _ H1), (IH _ Hm).
    rewrite !Z.div_div by lia. now rewrite pow2_xO.
  - rewrite shr_1_m by exact Hm. reflexivity.
Qed.

(** What [shr] leaves of a mantissa that is not negative, and the
    exponent that goes with it. *)
Lemma shr_fexp_spec (m e : Z) (l : location) :
  0 <= m ->
  let e' := Z.max e (fexp 53 1024 (Zdigits2 m + e)) in
  snd (shr_fexp 53 1024 m e l) = e'
  /\ shr_m (fst (shr_fexp 53 1024 m e l)) = m / 2 ^ (e' - e).
Proof.
  intros Hm e'. unfold shr_fexp, shr.
  assert (Hrec : shr_m (shr_record_of_loc m l) = m)
    by (destruct l as [|[]]; reflexivity).
  destruct (fexp 53 1024 (Zdigits2 m + e) - e) as [|k|k] eqn:Ek; cbn [fst snd].
  - assert (e' = e) by (unfold e'; lia).
    replace (e' - e) with 0 by lia. rewrite Hrec, Z.div_1_r. auto.
  - assert (e' = e + Z.pos k) by (unfold e'; lia).
    replace (e' - e) with (Z.pos k) by lia.
    rewrite iter_shr_m, Hrec by (rewrite Hrec; exact Hm). auto.
  - assert (e' = e) by (unfold e'; lia).
    replace (e' - e) with 0 by lia. rewrite Hrec, Z.div_1_r. auto.
Qed.

Lemma round_nearest_even_bound (m : Z) (l : location) :
  m <= round_nearest_even m l <= m + 1.
Proof.
  unfold round_nearest_even. destruct l as [|[]]; [lia| |lia|lia].
  destruct (Z.even m); lia.
Qed.

(** A number below [2^1023] whose digits start no higher than the
    largest exponent of the doubles is rounded to a double. *)
Lemma binary_round_aux_finite (s : bool) (m e D : Z) (l : location) :
  0 <= m < 2 ^ D -> 0 <= D -> e <= 970 -> D + e <= 1023 ->
  forall s', binary_round_aux 53 1024 s m e l <> S754_infinity s'.
Proof.
  intros [Hlo Hhi] HD He HDe s'. unfold binary_round_aux.
  destruct (shr_fexp_spec m e l Hlo) as [He1 Hm1].
  destruct (shr_fexp 53 1024 m e l) as [mrs1 e1]. cbn [fst snd] in He1, Hm1.
  rewrite <- He1 in Hm1.
  set (m2 := round_nearest_even (shr_m mrs1) (loc_of_shr_record mrs1)).
  pose proof (round_nearest_even_bound (shr_m mrs1) (loc_of_shr_record mrs1)) as Hr.
  fold m2 in Hr.
  pose proof (Zdigits2_bound m D (conj Hlo Hhi) HD) as Hd.
  assert (Hfexp : forall x, fexp 53 1024 x = Z.max (x - 53) (- 1074))
    by (intros x; reflexivity).
  rewrite Hfexp in He1.
  assert (Hk : 0 <= e1 - e) by lia.
  assert (Hm1lo : 0 <= shr_m mrs1) by (rewrite Hm1; apply Z.div_pos; lia).
  assert (Hm1hi : shr_m mrs1 < 2 ^ Z.max (D - (e1 - e)) 0).
  { rewrite Hm1. destruct (Z_le_gt_dec (e1 - e) D) as [Hle|Hgt].
    - rewrite Z.max_l by lia. apply Z.div_lt_upper_bound; [apply Z.pow_pos_nonneg; lia|].
      rewrite <- Z.pow_add_r by lia. now replace (e1 - e + (D - (e1 - e))) with D by lia.
    - rewrite Z.max_r by lia. rewrite Z.div_small; [reflexivity|].
      split; [exact Hlo|]. apply (Z.lt_le_trans _ (2 ^ D)); [exact Hhi|].
      apply Z.pow_le_mono_r; lia. }
  assert (Hm2 : 0 <= m2 < 2 ^ (Z.max (D - (e1 - e)) 0 + 1)).
  { split; [lia|]. rewrite Z.pow_add_r by lia. change (2 ^ 1) with 2. lia. }
  pose proof (Zdigits2_bound m2 _ Hm2 ltac:(lia)) as Hd2.
  destruct (shr_fexp_spec m2 e1 loc_Exact (proj1 Hm2)) as [He2 _].
  destruct (shr_fexp 53 1024 m2 e1 loc_Exact) as [mrs2 e2]. cbn [fst snd] in He2.
  rewrite Hfexp in He2.
  destruct (shr_m mrs2); [discriminate| |discriminate].
  replace (e2 <=? 1024 - 53) with true; [discriminate|].
  symmetry. apply Z.leb_le. lia.
Qed.

Lemma iter_xO (m d : positive) : Z.pos (Pos.iter xO m d) = Z.pos m * 2 ^ Z.pos d.
Proof.
  induction d as [|d IH] using Pos.peano_ind.
  - cbn [Pos.iter]. rewrite Pos2Z.inj_xO. change (2 ^ 1) with 2. lia.
  - rewrite Pos.iter_succ, Pos2Z.inj_xO, IH, Pos2Z.inj_succ, Z.pow_succ_r by lia.
    lia.
Qed.

Lemma binary_round_finite (s : bool) (m : positive) :
  Z.pos m < 2 ^ 1023 ->
  forall s', binary_round 53 1024 s m 0 <> S754_infinity s'.
Proof.
  intros Hm s'. unfold binary_round.
  pose proof (digits2_bound m 1023 Hm ltac:(lia)) as Hd.
  assert (Hsize : Z.pos m < 2 ^ Z.pos (digits2_pos m)).
  { rewrite digits2_size. change 2 with (Z.pos 2). rewrite <- Pos2Z.inj_pow.
    apply Pos.size_gt. }
  assert (Hfexp : fexp 53 1024 (Z.pos (digits2_pos m) + 0)
                  = Z.max (Z.pos (digits2_pos m) - 53) (- 1074))
    by (rewrite Z.add_0_r; reflexivity).
  unfold shl_align.
  destruct (fexp 53 1024 (Z.pos (digits2_pos m) + 0) - 0) as [|k|k] eqn:Ek.
  - apply (binary_round_aux_finite s (Z.pos m) 0 1023); lia.
  - apply (binary_round_aux_finite s (Z.pos m) 0 1023); lia.
  - apply (binary_round_aux_finite s _ _ (Z.pos (digits2_pos m) + Z.pos k)).
    + split; [lia|]. rewrite iter_xO, Z.pow_add_r by lia.
      apply Z.mul_lt_mono_pos_r; [apply Z.pow_pos_nonneg; lia|exact Hsize].
    + lia.
    + lia.
    + lia.
Qed.

(** An integer below [2^1023] in absolute value has a float. *)
Lemma of_int_returns (n : Z) :
  Z.abs n < 2 ^ 1023 -> exists f, Lr.of_int n = Lr.Returns f.
Proof.
  intros Hn. unfold Lr.of_int.
  assert (Hfin : forall s', binary_normalize 53 1024 n 0 false <> S754_infinity s').
  { destruct n as [|m|m]; cbn [binary_normalize]; [discriminate| |];
      apply binary_round_finite; lia. }
  destruct (binary_normalize 53 1024 n 0 false) as [s|s| |s m e];
    cbn [Lr.checked]; eauto.
  now destruct (Hfin s).
Qed.

(** The quotient of an integer below [2^1023] in absolute value by an
    integer other than 0 has a float. *)
Lemma true_div_returns (a b : Z) :
  b <> 0 -> Z.abs a < 2 ^ 1023 -> exists f, Lr.true_div a b = Lr.Returns f.
Proof.
  intros Hb Ha. unfold Lr.true_div.
  destruct (Z.eqb_spec b 0) as [|_]; [contradiction|].
  destruct (Z.eqb_spec a 0) as [|Ha0]; [eauto|].
  unfold SFdiv_core_binary.
  set (e' := Z.min (fexp 53 1024 (Zdigits2 (Z.abs a) + 0 - (Zdigits2 (Z.abs b) + 0)))
                   (0 - 0)).
  set (m' := match 0 - 0 - e' with
             | Z.pos _ => Z.shiftl (Z.abs a) (0 - 0 - e')
             | 0 => Z.abs a
             | Z.neg _ => 0
             end).
  assert (He' : e' <= 0) by (unfold e'; lia).
  assert (Hm' : 0 <= m' < 2 ^ (1023 - e')).
  { unfold m'. destruct (0 - 0 - e') as [|k|k] eqn:Ek.
    - replace (1023 - e') with 1023 by lia. lia.
    - rewrite Z.shiftl_mul_pow2 by lia.
      replace (1023 - e') with (1023 + Z.pos k) by lia.
      rewrite Z.pow_add_r by lia.
      assert (0 < 2 ^ Z.pos k) by (apply Z.pow_pos_nonneg; lia). nia.
    - lia. }
  pose proof (Z_div_mod_eq_full m' (Z.abs b)) as Hdiv. unfold Z.div, Z.modulo in Hdiv.
  assert (Hq : 0 <= m' / Z.abs b <= m').
  { split; [apply Z.div_pos; lia|]. apply Z.div_le_upper_bound; nia. }
  unfold Z.div in Hq.
  destruct (Z.div_eucl m' (Z.abs b)) as [q r]. cbn [fst] in Hq.
  assert (Hfin : forall s',
            binary_round_aux 53 1024 (xorb (a <? 0) (b <? 0)) q e'
              (new_location (Z.abs b) r) <> S754_infinity s').
  { apply (binary_round_aux_finite _ q e' (1023 - e')); lia. }
  destruct (binary_round_aux 53 1024 _ q e' _) as [s|s| |s m e];
    cbn [Lr.checked]; eauto.
  now destruct (Hfin s).
Qed.

Section LearningRate.

Variable cos : float -> float.
Context {O : Type}.

(** A schedule other than the four that the function knows raises
    [ValueError] with the message of the source, and no parameter group is
    changed. *)
Lemma lr_unknown_schedule (args : Lr.Args)
    (param_groups : list (gmap string (Lr.value O))) (epoch : Z) :
  Lr.lr_schedule args ∉ ["trades"; "trades_fixed"; "cosine"; "wrn"]%string ->
  Lr.adjust_learning_rate cos args param_groups epoch
  = (Lr.Raises (Lr.ValueError ("Unkown LR schedule " +:+ Lr.lr_schedule args)),
     param_groups).
Proof.
  intros Hs. unfold Lr.adjust_learning_rate, Lr.scheduled_lr.
  repeat match goal with
  | |- context [String.eqb ?a ?b] =>
      destruct (String.eqb_spec a b) as [E|_];
        [exfalso; apply Hs; rewrite E; set_solver|]
  end.
  reflexivity.
Qed.

(** The cosine schedule divides by [args.epochs]: with [epochs = 0] it
    raises [ZeroDivisionError], and no parameter group is changed. *)
Lemma lr_cosine_zero_epochs (args : Lr.Args)
    (param_groups : list (gmap string (Lr.value O))) (epoch : Z) :
  Lr.lr_schedule args = "cosine"%string ->
  Lr.epochs args = 0 ->
  Lr.adjust_learning_rate cos args param_groups epoch
  = (Lr.Raises Lr.ZeroDivisionError, param_groups).
Proof.
  intros Hs He. unfold Lr.adjust_learning_rate, Lr.scheduled_lr.
  rewrite Hs, He. reflexivity.
Qed.

(** When the function returns a learning rate, every parameter group has
    that rate under [lr], present before or not, and all its other entries
    as before; no group is added or dropped. *)
Theorem adjust_learning_rate_sets_all (args : Lr.Args)
    (param_groups param_groups' : list (gmap string (Lr.value O)))
    (epoch : Z) (new_lr : float) :
  Lr.adjust_learning_rate cos args param_groups epoch
  = (Lr.Returns new_lr, param_groups') ->
  Forall2 (fun group group' =>
             group' !! "lr"%string = Some (Lr.Float new_lr)
             /\ forall key, key <> "lr"%string -> group' !! key = group !! key)
          param_groups param_groups'.
Proof.
  unfold Lr.adjust_learning_rate.
  destruct (Lr.scheduled_lr cos args epoch) as [l|e]; [|discriminate].
  intros H. inversion H; subst. clear H.
  induction param_groups as [|group groups IH]; [constructor|].
  cbn [map]. constructor; [|exact IH]. split.
  - apply lookup_insert_eq.
  - intros key Hkey. now apply lookup_insert_ne.
Qed.

(** A call that raises leaves the parameter groups as they were. *)
Lemma lr_raises_unchanged (args : Lr.Args)
    (param_groups param_groups' : list (gmap string (Lr.value O)))
    (epoch : Z) (e : Lr.error) :
  Lr.adjust_learning_rate cos args param_groups epoch = (Lr.Raises e, param_groups') ->
  param_groups' = param_groups.
Proof.
  unfold Lr.adjust_learning_rate.
  destruct (Lr.scheduled_lr cos args epoch); intros H; now inversion H.
Qed.

(** The schedules that go by steps return a rate when [args.epochs] has
    a float. *)
Lemma lr_steps_return (args : Lr.Args)
    (param_groups : list (gmap string (Lr.value O))) (epoch : Z) :
  Lr.lr_schedule args ∈ ["trades"; "trades_fixed"; "wrn"]%string ->
  Z.abs (Lr.epochs args) < 2 ^ 1023 ->
  exists new_lr,
    Lr.adjust_learning_rate cos args param_groups epoch
    = (Lr.Returns new_lr, map (insert "lr"%string (Lr.Float new_lr)) param_groups).
Proof.
  intros Hs He. destruct (of_int_returns _ He) as [f Hf].
  unfold Lr.adjust_learning_rate, Lr.scheduled_lr, Lr.float_times_int.
  repeat (apply elem_of_cons in Hs as [Hs|Hs]);
    [| | |inversion Hs]; rewrite Hs, Hf;
    cbn [String.eqb Ascii.eqb Bool.eqb andb Lr.obind];
    eexists; reflexivity.
Qed.

(** The cosine schedule returns a rate when [args.epochs] is not 0 and
    the quotient has a float. *)
Lemma lr_cosine_returns (args : Lr.Args)
    (param_groups : list (gmap string (Lr.value O))) (epoch : Z) :
  Lr.lr_schedule args = "cosine"%string ->
  Lr.epochs args <> 0 ->
  Z.abs (epoch - 1) < 2 ^ 1023 ->
  exists new_lr,
    Lr.adjust_learning_rate cos args param_groups epoch
    = (Lr.Returns new_lr, map (insert "lr"%string (Lr.Float new_lr)) param_groups).
Proof.
  intros Hs He Hepoch. destruct (true_div_returns _ _ He Hepoch) as [q Hq].
  unfold Lr.adjust_learning_rate, Lr.scheduled_lr.
  rewrite Hs, Hq. cbn [String.eqb Ascii.eqb Bool.eqb andb Lr.obind].
  eexists. reflexivity.
Qed.

(** The ways a call can end. An unknown schedule raises [ValueError],
    and the cosine schedule with [epochs = 0] raises [ZeroDivisionError];
    a call that raises, whatever the exception, changes no parameter
    group. A schedule that goes by steps returns a rate and writes it into
    every parameter group when [args.epochs] is below 2^1023 in absolute
    value, and so does the cosine schedule when [args.epochs] is not 0 and
    [epoch - 1] is below 2^1023 in absolute value. Integers beyond the
    range of the floats make the call raise [OverflowError]. *)
Theorem adjust_learning_rate_outcome (args : Lr.Args)
    (param_groups : list (gmap string (Lr.value O))) (epoch : Z) :
  (Lr.lr_schedule args ∉ ["trades"; "trades_fixed"; "cosine"; "wrn"]%string ->
   Lr.adjust_learning_rate cos args param_groups epoch
   = (Lr.Raises (Lr.ValueError ("Unkown LR schedule " +:+ Lr.lr_schedule args)),
      param_groups))
  /\ (Lr.lr_schedule args = "cosine"%string -> Lr.epochs args = 0 ->
      Lr.adjust_learning_rate cos args param_groups epoch
      = (Lr.Raises Lr.ZeroDivisionError, param_groups))
  /\ (forall e param_groups',
        Lr.adjust_learning_rate cos args param_groups epoch
        = (Lr.Raises e, param_groups') ->
        param_groups' = param_groups)
  /\ (Lr.lr_schedule args ∈ ["trades"; "trades_fixed"; "wrn"]%string ->
      Z.abs (Lr.epochs args) < 2 ^ 1023 ->
      exists new_lr,
        Lr.adjust_learning_rate cos args param_groups epoch
        = (Lr.Returns new_lr,
           map (insert "lr"%string (Lr.Float new_lr)) param_groups))
  /\ (Lr.lr_schedule args = "cosine"%string ->
      Lr.epochs args <> 0 ->
      Z.abs (epoch - 1) < 2 ^ 1023 ->
      exists new_lr,
        Lr.adjust_learning_rate cos args param_groups epoch
        = (Lr.Returns new_lr,
           map (insert "lr"%string (Lr.Float new_lr)) param_groups)).
Proof.
  split; [apply lr_unknown_schedule|].
  split; [apply lr_cosine_zero_epochs|].
  split; [intros e groups'; apply lr_raises_unchanged|].
  split; [apply lr_steps_return|apply lr_cosine_returns].
Qed.

End LearningRate.

Lemma adjust_learning_rate_outcome_witness :
  Lr.adjust_learning_rate (fun x => x) (Lr.mkArgs 0.1%float "step" 100) two_groups 10
  = (Lr.Raises (Lr.ValueError "Unkown LR schedule step"), two_groups)
  /\ Lr.adjust_learning_rate (fun x => x) (Lr.mkArgs 0.1%float "cosine" 0) two_groups 10
     = (Lr.Raises Lr.ZeroDivisionError, two_groups)
  /\ (exists new_lr,
        Lr.adjust_learning_rate (fun x => x) (Lr.mkArgs 0.1%float "wrn" 100)
          two_groups 65
        = (Lr.Returns new_lr, map (insert "lr"%string (Lr.Float new_lr)) two_groups))
  /\ (exists new_lr,
        Lr.adjust_learning_rate (fun x => x) (Lr.mkArgs 0.1%float "cosine" 100)
          two_groups 51
        = (Lr.Returns new_lr, map (insert "lr"%string (Lr.Float new_lr)) two_groups)).
Proof.
  split; [|split; [|split]].
  - apply (adjust_learning_rate_outcome (fun x => x)
             (Lr.mkArgs 0.1%float "step" 100) two_groups 10).
    cbn. intros H. repeat (apply elem_of_cons in H as [H|H]; [discriminate|]).
    inversion H.
  - apply (adjust_learning_rate_outcome (fun x => x)
             (Lr.mkArgs 0.1%float "cosine" 0) two_groups 10); reflexivity.
  - destruct (adjust_learning_rate_outcome (fun x => x)
                (Lr.mkArgs 0.1%float "wrn" 100) two_groups 65)
      as (_ & _ & _ & Hsteps & _).
    apply Hsteps.
    + cbn. do 2 right. left.
    + cbn. lia.
  - destruct (adjust_learning_rate_outcome (fun x => x)
                (Lr.mkArgs 0.1%float "cosine" 100) two_groups 51)
      as (_ & _ & _ & _ & Hcosine).
    apply Hcosine.
    + reflexivity.
    + cbn. discriminate.
    + cbn. lia.
Defined.

(** Integers too large for a float. With [args.epochs = 10^400] the
    product [0.75 * args.epochs] raises [OverflowError], and so does the
    quotient of the cosine schedule at epoch [10^400]; the comparison of
    an epoch with a float rounds nothing: [2^54 + 7 >= 2^54 + 8.0] is
    false. *)
Example lr_overflow :
  Lr.adjust_learning_rate (fun x => x) (Lr.mkArgs 0.1%float "trades" (10 ^ 400))
    two_groups 10
  = (Lr.Raises Lr.OverflowError, two_groups)
  /\ Lr.adjust_learning_rate (fun x => x) (Lr.mkArgs 0.1%float "cosine" 100)
       two_groups (10 ^ 400)
     = (Lr.Raises Lr.OverflowError, two_groups)
  /\ Lr.int_ge (2 ^ 54 + 7) 18014398509481992%float = false.
Proof. vm_compute. repeat split. Qed.

Lemma adjust_learning_rate_sets_all_witness :
  Forall2 (fun group group' =>
             group' !! "lr"%string = Some (Lr.Float (0.1 * 0.2 * 0.2)%float)
             /\ forall key, key <> "lr"%string -> group' !! key = group !! key)
          two_groups
          (map (insert "lr"%string (Lr.Float (0.1 * 0.2 * 0.2)%float)) two_groups).
Proof.
  apply (adjust_learning_rate_sets_all (fun x => x)
           (Lr.mkArgs 0.1%float "wrn" 100) two_groups _ 65).
  vm_compute. reflexivity.
Defined.
